(** * K-means with K-means++ seeding ([kmeaningful/fit_assign.py])

    A shallow embedding of the six routines of [fit_assign.py]
    ([init_centers], [assign], [measure_dist], [calc_centers], [fit],
    [fit_assign]) together with the parts of numpy they call.

    Numbers.  The program computes on IEEE binary64 values; they are
    Rocq's primitive floats, whose operations are the correctly rounded
    ones of the processor: rounding, overflow to an infinity, underflow
    to zero, the two zeros and [nan] are those of the program.  The
    reductions follow numpy's loops: [np.sum] adds in the order of
    numpy's pairwise summation, [np.min], [np.argmin] and [np.argmax]
    scan from the left, [np.random.choice] validates the probabilities
    with its compensated sum.

    Errors.  Every [raise] of the source and every exception of a numpy
    call that the source can trigger is a constructor of [error]; the
    routines return a [result].

    Randomness.  The two ambient generators ([random] and [np.random])
    are an explicit argument [g : rng]. *)

From Stdlib Require Import Reals Lra Lia ZArith QArith Qreals String Floats.
From Stdlib Require Uint63.
From stdpp Require Import base decidable option list.

(** ** Exceptions *)

(** The kinds of failure of the specification (section 7), and a kind
    for exceptions raised inside numpy. *)
Inductive error_kind :=
  | InvalidParameterError
  | ShapeError
  | LengthMismatchError
  | NonNumericInputError
  | UnconvertibleInputError
  | LibraryError.

(** One constructor per [raise] site (same message, same constructor),
    then the numpy exceptions. *)
Inductive error :=
  | TooManyClusters        (* init_centers, line 32 *)
  | NonPositiveClusters    (* init_centers, line 36 *)
  | WidthMismatch          (* assign line 101, calc_centers line 183 *)
  | MoreCentersThanPoints  (* assign line 104, measure_dist line 142 *)
  | LabelCountMismatch     (* calc_centers, line 179 *)
  | NonNumericData         (* fit line 232, fit_assign line 295 *)
  | NotAnArray             (* fit line 237, fit_assign line 300 *)
  | KNotInteger            (* fit line 240, fit_assign line 303 *)
  | BoolDimension          (* np.zeros: a bool is not accepted as a dimension *)
  | BroadcastError         (* numpy: operands could not be broadcast *)
  | EmptyReduction         (* numpy: argmin/argmax/min of an empty array *)
  | IndexOutOfBounds       (* numpy: IndexError *)
  | EmptyPopulation        (* np.random.choice: a cannot be empty *)
  | ProbabilitiesNaN       (* np.random.choice: probabilities contain NaN *)
  | ProbabilitiesNegative  (* np.random.choice: probabilities are not non-negative *)
  | ProbabilitiesSum       (* np.random.choice: probabilities do not sum to 1 *)
  | EmptyRange.            (* random.randint: empty range *)

Definition message (e : error) : string :=
  match e with
  | TooManyClusters => "Number of clusters must be less than number of data points"
  | NonPositiveClusters => "Number of clusters must be a positive integer"
  | WidthMismatch => "`X` and `centers` must have the same width"
  | MoreCentersThanPoints => "There are more centers than data points"
  | LabelCountMismatch => "The number of labels is different from the number of points"
  | NonNumericData => "Array contains non-numeric data"
  | NotAnArray => "Data must be an array"
  | KNotInteger => "k must be an integer"
  | BoolDimension => "expected a sequence of integers or a single integer, got 'True'"
  | BroadcastError => "operands could not be broadcast together"
  | EmptyReduction => "attempt to get argmin of an empty sequence"
  | IndexOutOfBounds => "index is out of bounds"
  | EmptyPopulation => "'a' cannot be empty unless no samples are taken"
  | ProbabilitiesNaN => "probabilities contain NaN"
  | ProbabilitiesNegative => "probabilities are not non-negative"
  | ProbabilitiesSum => "probabilities do not sum to 1"
  | EmptyRange => "empty range for randrange()"
  end.

Definition kind_of (e : error) : error_kind :=
  match e with
  | TooManyClusters | NonPositiveClusters | KNotInteger => InvalidParameterError
  | WidthMismatch | MoreCentersThanPoints => ShapeError
  | LabelCountMismatch => LengthMismatchError
  | NonNumericData => NonNumericInputError
  | NotAnArray => UnconvertibleInputError
  | BoolDimension | BroadcastError | EmptyReduction | IndexOutOfBounds
  | EmptyPopulation | ProbabilitiesNaN | ProbabilitiesNegative | ProbabilitiesSum
  | EmptyRange => LibraryError
  end.

Inductive result (A : Type) :=
  | Ok (a : A)
  | Err (e : error).
Arguments Ok {A} a.
Arguments Err {A} e.

#[global] Instance result_ret : MRet result := fun A a => Ok a.
#[global] Instance result_bind : MBind result := fun A B f m =>
  match m with
  | Ok a => f a
  | Err e => Err e
  end.
#[global] Instance result_fmap : FMap result := fun A B f m =>
  match m with
  | Ok a => Ok (f a)
  | Err e => Err e
  end.

(** [for x in l: ...] where the body may raise: the first exception
    stops the loop. *)
Fixpoint traverse {A B : Type} (f : A -> result B) (l : list A) : result (list B) :=
  match l with
  | [] => Ok []
  | a :: l' => b ← f a; bs ← traverse f l'; Ok (b :: bs)
  end.

(** ** Numbers *)

(** A numpy [float64] is a binary64 value. *)
Abbreviation float64 := float (only parsing).

#[global] Instance float64_inhabited : Inhabited float64 := populate 0%float.

(** [np.isnan] *)
Definition fisnan (x : float64) : bool := is_nan x.

(** [x ** 2]: numpy squares by one multiplication. *)
Definition fsquare (x : float64) : float64 := (x * x)%float.

(** Truth value of a numpy float in a condition: every value but the
    two zeros is true, [nan] included. *)
Definition truthy (x : float64) : bool := negb (x =? 0)%float.

(** The float of a count (Python converts the [int] on division). *)
Definition float_of_nat (n : nat) : float64 := of_uint63 (Uint63.of_Z (Z.of_nat n)).

(** *** [np.sum]

    numpy adds the elements of a contiguous or strided run by its
    pairwise summation: fewer than 8 elements from left to right; up
    to 128 elements with 8 accumulators, combined as a balanced tree,
    then the remaining elements from left to right; more than 128
    elements by halves (the first half rounded down to a multiple of
    8).  The reduction starts from the identity [-0.0]; the sum of an
    empty array is [0.0]. *)

Definition seq_sum (acc : float64) (l : list float64) : float64 :=
  foldl PrimFloat.add acc l.

(** The loop of the 8 accumulators [r], [steps] times 8 elements of
    [l]; returns the accumulators and what is left of [l]. *)
Fixpoint accumulate8 (steps : nat) (r l : list float64) : list float64 * list float64 :=
  match steps with
  | 0 => (r, l)
  | S steps' => accumulate8 steps' (zip_with PrimFloat.add r (take 8 l)) (drop 8 l)
  end.

Definition block_sum (l : list float64) : float64 :=
  let '(r, rest) := accumulate8 (length l / 8 - 1) (take 8 l) (drop 8 l) in
  let r0 := r !!! 0 in let r1 := r !!! 1 in let r2 := r !!! 2 in let r3 := r !!! 3 in
  let r4 := r !!! 4 in let r5 := r !!! 5 in let r6 := r !!! 6 in let r7 := r !!! 7 in
  seq_sum (((r0 + r1) + (r2 + r3)) + ((r4 + r5) + (r6 + r7)))%float rest.

(** [fuel] bounds the depth of the recursion by halves; the length of
    the list is always enough. *)
Fixpoint pairwise_sum (fuel : nat) (l : list float64) : float64 :=
  let n := length l in
  if decide (n < 8) then seq_sum (-0)%float l
  else if decide (n <= 128) then block_sum l
  else match fuel with
       | 0 => block_sum l
       | S fuel' =>
           let n2 := n / 2 - (n / 2) mod 8 in
           (pairwise_sum fuel' (take n2 l) + pairwise_sum fuel' (drop n2 l))%float
       end.

(** [np.sum] of a one-dimensional array. *)
Definition np_sum (l : list float64) : float64 :=
  match l with
  | [] => 0%float
  | _ => ((-0) + pairwise_sum (length l) l)%float
  end.

(** [np.mean] of a one-dimensional array: the sum divided by the
    number of elements; on an empty array this is [0/0]. *)
Definition np_mean (l : list float64) : float64 :=
  (np_sum l / float_of_nat (length l))%float.

(** [np.minimum(x, y)], which propagates [nan]. *)
Definition np_minimum (x y : float64) : float64 :=
  if (x <=? y)%float || fisnan x then x else y.

(** [a.min()] of a one-dimensional array. *)
Definition np_min (l : list float64) : result float64 :=
  match l with
  | [] => Err EmptyReduction
  | x :: l' => Ok (foldl np_minimum x l')
  end.

(** [np.argmin] of a one-dimensional array: the scan of numpy's
    [argmin] loop, which keeps the first minimum and stops at the first
    [nan]. [mp] is the current minimum, [best] its index and [i] the
    index of the head of [l]. *)
Fixpoint argmin_scan (mp : float64) (best i : nat) (l : list float64) : nat :=
  match l with
  | [] => best
  | x :: l' =>
      if (mp <=? x)%float then argmin_scan mp best (S i) l'
      else if fisnan x then i
      else argmin_scan x i (S i) l'
  end.

Definition np_argmin (l : list float64) : result nat :=
  match l with
  | [] => Err EmptyReduction
  | x :: l' => if fisnan x then Ok 0 else Ok (argmin_scan x 0 1 l')
  end.

(** [np.argmax], the mirror image. *)
Fixpoint argmax_scan (mp : float64) (best i : nat) (l : list float64) : nat :=
  match l with
  | [] => best
  | x :: l' =>
      if (x <=? mp)%float then argmax_scan mp best (S i) l'
      else if fisnan x then i
      else argmax_scan x i (S i) l'
  end.

Definition np_argmax (l : list float64) : result nat :=
  match l with
  | [] => Err EmptyReduction
  | x :: l' => if fisnan x then Ok 0 else Ok (argmax_scan x 0 1 l')
  end.

(** ** Arrays *)

(** A two-dimensional array: its second dimension is kept apart from
    the rows, since an array with no row still has a width. *)
Record mat := Mat { width : nat; rows : list (list float64) }.

(** [X.shape[0]] *)
Definition shape0 (X : mat) : nat := length (rows X).

Definition wf_mat (X : mat) : Prop :=
  Forall (fun r => length r = width X) (rows X).

(** The second argument of [measure_dist] is a two-dimensional array
    on every call but the one of [calc_centers], which passes the
    one-dimensional [centers[kk]]. *)
Inductive ndarray :=
  | Arr1 (v : list float64)
  | Arr2 (M : mat).

Definition nd_shape0 (a : ndarray) : nat :=
  match a with
  | Arr1 v => length v
  | Arr2 M => shape0 M
  end.

(** [a[kk, ]]: a row of a two-dimensional array, a scalar of a
    one-dimensional one. *)
Inductive cell :=
  | Scalar (c : float64)
  | Row (r : list float64).

Definition nd_cells (a : ndarray) : list cell :=
  match a with
  | Arr1 v => map Scalar v
  | Arr2 M => map Row (rows M)
  end.

(** [pt - cent] with numpy's broadcasting rules for a one-dimensional
    [pt]. *)
Definition broadcast_sub (pt : list float64) (cent : cell) : result (list float64) :=
  match cent with
  | Scalar c => Ok (map (fun x => x - c)%float pt)
  | Row r =>
      if decide (length pt = length r) then Ok (zip_with PrimFloat.sub pt r)
      else match r, pt with
           | [c], _ => Ok (map (fun x => x - c)%float pt)
           | _, [x] => Ok (map (fun c => x - c)%float r)
           | _, _ => Err BroadcastError
           end
  end.

(** [np.sum] of a two-dimensional array (all entries, in row-major
    order). *)
Definition np_sum2 (X : mat) : float64 := np_sum (concat (rows X)).

(** [X[i]] *)
Definition row_at (X : mat) (i : nat) : result (list float64) :=
  match rows X !! i with
  | Some r => Ok r
  | None => Err IndexOutOfBounds
  end.

(** ** [measure_dist] (lines 114-152) *)

(** [np.sqrt(np.sum((pt - cent)**2))] *)
Definition dist_entry (pt : list float64) (cent : cell) : result float64 :=
  diff ← broadcast_sub pt cent;
  Ok (PrimFloat.sqrt (np_sum (map fsquare diff))).

(** The source fills [distances[nn, kk]] for [kk] in the outer loop and
    [nn] in the inner one; the entries do not depend on one another, so
    the matrix is built row by row here. *)
Definition measure_dist (X : mat) (centers : ndarray) : result mat :=
  if decide (shape0 X < nd_shape0 centers) then Err MoreCentersThanPoints
  else
    D ← traverse (fun pt => traverse (dist_entry pt) (nd_cells centers)) (rows X);
    Ok (Mat (nd_shape0 centers) D).

(** ** [assign] (lines 73-111) *)

Definition assign (X centers : mat) : result (list Z) :=
  if decide (width X ≠ width centers) then Err WidthMismatch
  else if decide (shape0 X < shape0 centers) then Err MoreCentersThanPoints
  else
    distances ← measure_dist X (Arr2 centers);
    traverse (fun drow => j ← np_argmin drow; Ok (Z.of_nat j)) (rows distances).

(** ** [calc_centers] (lines 155-202) *)

(** [X[labels == kk]]: the rows of [X] whose label is [kk]. *)
Definition members (X : mat) (labels : list Z) (kk : nat) : list (list float64) :=
  (filter (fun p => p.2 = Z.of_nat kk) (zip (rows X) labels)).*1.

(** [M[:, dd]] *)
Definition column (dd : nat) (M : list (list float64)) : list float64 :=
  map (fun r => r !!! dd) M.

(** Line 191: the mean of the members of cluster [kk], dimension by
    dimension. *)
Definition current_center (X : mat) (labels : list Z) (kk : nat) : list float64 :=
  map (fun dd => np_mean (column dd (members X labels kk))) (seq 0 (width X)).

(** Lines 198-200: the row taken when the mean is [nan]. *)
Definition fallback_row (X centers : mat) (kk : nat) : result (list float64) :=
  c ← row_at centers kk;
  dists ← measure_dist X (Arr1 c);
  j ← np_argmax (concat (rows dists));
  row_at X (j / width X).

Definition new_center (X centers : mat) (labels : list Z) (kk : nat) : result (list float64) :=
  let cc := current_center X labels kk in
  if negb (fisnan (np_sum cc)) then Ok cc
  else fallback_row X centers kk.

Definition calc_centers (X centers : mat) (labels : list Z) : result mat :=
  if decide (shape0 X ≠ length labels) then Err LabelCountMismatch
  else if decide (width X ≠ width centers) then Err WidthMismatch
  else
    new_centers ← traverse (new_center X centers labels) (seq 0 (shape0 centers));
    Ok (Mat (width X) new_centers).

(** ** Randomness *)

(** The state of the two global generators, as far as the program can
    observe it: the integer behind the single call of
    [random.randint], and, for the [c]-th call of [np.random.choice],
    the index it returns on each probability vector. *)
Record rng := Rng { randint_raw : nat; choice_draw : nat -> list float64 -> nat }.

(** [random.randint(a, b)]: some integer of [[a, b]]. *)
Definition random_randint (g : rng) (a b : Z) : result Z :=
  if decide (b < a)%Z then Err EmptyRange
  else Ok (a + Z.of_nat (randint_raw g) mod (b - a + 1))%Z.

(** The compensated sum by which [np.random.choice] adds the
    probabilities ([kahan_sum] of numpy's [mtrand]); the state is the
    pair of the sum and the compensation. *)
Definition kahan_step (st : float64 * float64) (x : float64) : float64 * float64 :=
  let '(sum, c) := st in
  let y := (x - c)%float in
  let t := (sum + y)%float in
  (t, ((t - sum) - y)%float).

Definition kahan_sum (p : list float64) : float64 :=
  match p with
  | [] => 0%float
  | x :: p' => (foldl kahan_step (x, 0%float) p').1
  end.

(** The tolerance on the sum of the probabilities: the square root of
    the machine epsilon, [2^-26]. *)
Definition atol : float64 := 0x1p-26%float.

(** [np.random.choice(range(len(p)), size=1, p=p)]: numpy validates
    [p], in this order (the test for [nan] is made on the sum of [p]),
    then samples. *)
Definition np_random_choice (g : rng) (c : nat) (p : list float64) : result nat :=
  if decide (p = []) then Err EmptyPopulation
  else
    let p_sum := kahan_sum p in
    if fisnan p_sum then Err ProbabilitiesNaN
    else if existsb (fun x => x <? 0)%float p then Err ProbabilitiesNegative
    else if (atol <? PrimFloat.abs (p_sum - 1))%float then Err ProbabilitiesSum
    else Ok (choice_draw g c p).

(** numpy never returns an index of probability zero: what a
    generator state must satisfy to be one of numpy's. *)
Definition rng_ok (g : rng) : Prop :=
  forall c p, np_random_choice g c p = Ok (choice_draw g c p) ->
    exists x, p !! choice_draw g c p = Some x /\ (0 <? x)%float = true.

(** ** [init_centers] (lines 6-70) *)

(** A [for] loop over [l] whose body updates the state [s] and may
    raise. *)
Fixpoint for_each {S A : Type} (body : S -> A -> result S) (l : list A) (s : S) : result S :=
  match l with
  | [] => Ok s
  | a :: l' => s' ← body s a; for_each body l' s'
  end.

(** [a[a == v] = w] on one row. *)
Definition replace_eq (v w : float64) (row : list float64) : list float64 :=
  map (fun x => if (x =? v)%float then w else x) row.

(** Lines 50-60: the weight of every point when [centers[0:kk]] are
    chosen and [ind] holds their indices.  (The indices of [ind] are
    rows of [X]: each was used to read [X] when it was drawn.) *)
Definition kpp_weights (X centers : mat) (kk : nat) (ind : list nat) : result (list float64) :=
  D ← measure_dist X (Arr2 (Mat (width centers) (take kk (rows centers))));
  let dists_sq := map (map fsquare) (rows D) in
  let dists_sq := foldl (fun acc i => <[i := replicate (width D) 0%float]> acc) dists_sq ind in
  let dists_sq := map (replace_eq 0%float infinity) dists_sq in
  dists_sq ← traverse np_min dists_sq;
  Ok (replace_eq infinity 0%float dists_sq).

(** Line 62 *)
Definition kpp_probs (dists_sq : list float64) : list float64 :=
  map (fun x => x / np_sum dists_sq)%float dists_sq.

(** The body of the loop of line 48. *)
Definition kpp_step (g : rng) (X : mat) (st : mat * list nat) (kk : nat) : result (mat * list nat) :=
  let '(centers, ind) := st in
  dists_sq ← kpp_weights X centers kk ind;
  i ← np_random_choice g kk (kpp_probs dists_sq);
  r ← row_at X i;
  Ok (Mat (width centers) (<[kk := r]> (rows centers)), ind ++ [i]).

(** The values of [k] that pass [isinstance(k, int)]: an [int], or a
    [bool], which Python makes a subclass of [int] with the values 0
    and 1. *)
Inductive pyint :=
  | Int (z : Z)
  | Bool (b : bool).

Coercion Int : Z >-> pyint.

Definition int_value (k : pyint) : Z :=
  match k with
  | Int z => z
  | Bool b => Z.b2z b
  end.

(** The state of the loop of [init_centers] is the pair of [centers]
    and [ind].  The two tests of lines 31-36 compare the value of [k];
    [np.zeros((k, dimensions))] of line 40 refuses a [bool]. *)
Definition init_state (g : rng) (X : mat) (k : pyint) : result (mat * list nat) :=
  let kz := int_value k in
  if decide (Z.of_nat (shape0 X) < kz)%Z then Err TooManyClusters
  else if decide (kz <= 0)%Z then Err NonPositiveClusters
  else
    match k with
    | Bool _ => Err BoolDimension
    | Int _ =>
        let n := shape0 X in
        let dimensions := width X in
        let centers := replicate (Z.to_nat kz) (replicate dimensions 0%float) in
        i0 ← random_randint g 0 (Z.of_nat n - 1);
        r0 ← row_at X (Z.to_nat i0);
        for_each (kpp_step g X) (seq 1 (Z.to_nat kz - 1))
                 (Mat dimensions (<[0 := r0]> centers), [Z.to_nat i0])
    end.

Definition init_centers (g : rng) (X : mat) (k : pyint) : result mat :=
  st ← init_state g X k; Ok st.1.

(** ** [fit] (lines 205-263) and [fit_assign] (lines 266-308) *)

(** The values [k] can have, as far as [isinstance(k, int)] tells them
    apart. *)
Inductive pyobj :=
  | PyInt (k : pyint)
  | PyFloat (x : float64)
  | PyStr (s : string).

(** [new_centers - centers], two arrays of one shape. *)
Definition mat_sub (A B : mat) : mat :=
  Mat (width A) (zip_with (zip_with PrimFloat.sub) (rows A) (rows B)).

(** The condition of the [while] of line 254. *)
Definition continue_loop (centers new_centers : mat) (i : nat) : bool :=
  truthy (np_sum2 (mat_sub new_centers centers)) && bool_decide (i < 20).

(** The [while] loop of lines 254-261 on the state
    [(centers, new_centers, i)]; [fuel] bounds the number of times the
    body may run, and [None] means that it ran out. *)
Fixpoint fit_while (fuel : nat) (X centers new_centers : mat) (i : nat)
  : option (result (mat * nat)) :=
  if continue_loop centers new_centers i then
    match fuel with
    | 0 => None
    | S fuel' =>
        match assign X new_centers with
        | Err e => Some (Err e)
        | Ok new_labels =>
            match calc_centers X new_centers new_labels with
            | Err e => Some (Err e)
            | Ok newer => fit_while fuel' X new_centers newer (S i)
            end
        end
    end
  else Some (Ok (new_centers, i)).

(** Lines 243-251: seeding and the first iteration. *)
Definition fit_first (g : rng) (X : mat) (k : pyint) : result (mat * mat) :=
  centers ← init_centers g X k;
  labels ← assign X centers;
  new_centers ← calc_centers X centers labels;
  new_labels ← assign X centers;
  Ok (centers, new_centers).

(** [fit], returning with the centers the final value of the iteration
    counter [i].  [pd.DataFrame(X)] of lines 234-237 cannot fail on a
    two-dimensional array. *)
Definition fit_run (fuel : nat) (g : rng) (X : mat) (k : pyobj) : option (result (mat * nat)) :=
  if fisnan (np_sum2 X) then Some (Err NonNumericData)
  else match k with
       | PyInt z =>
           match fit_first g X z with
           | Err e => Some (Err e)
           | Ok (centers, new_centers) => fit_while fuel X centers new_centers 1
           end
       | _ => Some (Err KNotInteger)
       end.

Definition fit (fuel : nat) (g : rng) (X : mat) (k : pyobj) : option (result mat) :=
  match fit_run fuel g X k with
  | Some (Ok (new_centers, _)) => Some (Ok new_centers)
  | Some (Err e) => Some (Err e)
  | None => None
  end.

Definition fit_assign (fuel : nat) (g : rng) (X : mat) (k : pyobj)
  : option (result (mat * list Z)) :=
  if fisnan (np_sum2 X) then Some (Err NonNumericData)
  else match k with
       | PyInt _ =>
           match fit fuel g X k with
           | Some (Ok centers) =>
               Some (labels ← assign X centers; Ok (centers, labels))
           | Some (Err e) => Some (Err e)
           | None => None
           end
       | _ => Some (Err KNotInteger)
       end.

(** * Vocabulary of the properties *)

(** ** Values

    Not negative: [+0.0], [-0.0], the positive values and [+inf]; not
    [nan]. *)
Definition nonneg (x : float64) : Prop := (0 <=? x)%float = true.

Definition SFnonneg (x : spec_float) : Prop := SFleb (S754_zero false) x = true.

(** Neither an infinity nor [nan]. *)
Definition finite (x : float64) : Prop :=
  match Prim2SF x with
  | S754_zero _ | S754_finite _ _ _ => True
  | _ => False
  end.

(** ** Distances

    The formula of [measure_dist] for a point and a center of one
    length, evaluated in binary64: the square root of the sum, over the
    dimensions, of the squared coordinate differences. *)
Definition dist_value (pt c : list float64) : float64 :=
  PrimFloat.sqrt (np_sum (map fsquare (zip_with PrimFloat.sub pt c))).

(** The real number that a finite binary64 value stands for. *)
Definition B2Q (x : float64) : Q :=
  match Prim2SF x with
  | S754_finite s m e => Qred (inject_Z (cond_Zopp s (Z.pos m)) * Qpower 2 e)
  | _ => 0%Q
  end.

Definition B2R (x : float64) : R := Q2R (B2Q x).

(** The sum of a list of reals. *)
Definition Rsum (l : list R) : R := foldr Rplus 0%R l.

(** The Euclidean norm of [p - c] in exact arithmetic, in the words of
    the specification: the square root of the sum, over the dimensions,
    of the squared coordinate differences. *)
Definition euclid (p c : list R) : R :=
  R_sqrt.sqrt (Rsum (zip_with (fun a b => (a - b) * (a - b))%R p c)).

(** [measure_dist] on the one-dimensional [centers[kk]]: the entry
    (nn, t) is the computed norm of [X[nn]] minus the scalar [c[t]]. *)
Definition dist_to_scalar (pt : list float64) (x : float64) : float64 :=
  PrimFloat.sqrt (np_sum (map fsquare (map (fun y => y - x)%float pt))).

(** ** Labels

    Two label vectors that give every cluster index below [k] the
    same points. *)
Definition same_clusters (k : nat) (L L' : list Z) : Prop :=
  length L = length L' /\
  forall i z z' kk, L !! i = Some z -> L' !! i = Some z' -> kk < k ->
    (z = Z.of_nat kk <-> z' = Z.of_nat kk).

(** The labelled points whose label is an index of a center. *)
Definition in_range_points (k : nat) (X : mat) (L : list Z) : list (list float64 * Z) :=
  filter (fun p => (0 <= p.2 < Z.of_nat k)%Z) (zip (rows X) L).

(** ** Seeding

    The state of the loop of [init_centers] on any [X] when [m] of the
    [k] centers are chosen: [ind] holds [m] rows of [X], the first [m]
    rows of [centers] are these rows, and the indices are distinct when
    the sampler is numpy's. *)
Definition drawn (g : rng) (X : mat) (k m : nat) (st : mat * list nat) : Prop :=
  width st.1 = width X /\ length (rows st.1) = k /\ length st.2 = m /\
  Forall (fun i => i < shape0 X) st.2 /\
  take m (rows st.1) = map (fun i => rows X !!! i) st.2 /\
  (rng_ok g -> NoDup st.2).

(** Two generator states that deliver the same draws to a run with
    [k] clusters. *)
Definition same_draws (k : Z) (g g' : rng) : Prop :=
  randint_raw g = randint_raw g' /\
  forall c p, (1 <= Z.of_nat c < k)%Z -> choice_draw g c p = choice_draw g' c p.

(** The sampler that returns the first index of positive probability:
    one of the behaviours of numpy's sampler. *)
Fixpoint first_positive (p : list float64) : nat :=
  match p with
  | [] => 0
  | x :: p' => if (0 <? x)%float then 0 else S (first_positive p')
  end.

(** The shape of the state of the loop of [init_centers]: [centers] is
    a [k] x d array. *)
Definition well_shaped (X : mat) (k : nat) (st : mat * list nat) : Prop :=
  width st.1 = width X /\ length (rows st.1) = k /\
  Forall (fun r => length r = width X) (rows st.1).

(** ** Iterations

    One iteration: label the points, then recompute the centers. *)
Definition update (X C : mat) : result mat :=
  labels ← assign X C; calc_centers X C labels.

(** The centers after [t] iterations from [C0]. *)
Fixpoint iterate (X : mat) (t : nat) (C0 : mat) : result mat :=
  match t with
  | 0 => Ok C0
  | S t' => C ← iterate X t' C0; update X C
  end.

(** The sum of all coordinate differences between the centers [Q] and
    the previous ones [P], as line 254 computes it. *)
Definition shift (Q P : mat) : float64 := np_sum2 (mat_sub Q P).

(** The [t]-th iteration changed the centers by a sum that is not
    zero. *)
Definition moved (X C0 : mat) (t : nat) : Prop :=
  exists P Q, iterate X (t - 1) C0 = Ok P /\ update X P = Ok Q /\
              (shift Q P =? 0)%float = false.

(** What [fit] returns when it returns centers [C] with the counter at
    [i]: [C] is the [i]-th iterate, [i] is at most 20, the sum of the
    coordinate differences of the last iteration is zero unless
    [i = 20], and it is not zero for any earlier iteration. *)
Definition stopped_at (X C0 C : mat) (i : nat) : Prop :=
  1 <= i <= 20 /\
  (exists Cprev, iterate X (i - 1) C0 = Ok Cprev /\ update X Cprev = Ok C /\
                 ((shift C Cprev =? 0)%float = true \/ i = 20)) /\
  forall t, 1 <= t < i -> moved X C0 t.

(** The means of the columns of [X], as [np.mean] computes them. *)
Definition column_means (X : mat) : list float64 :=
  map (fun dd => np_mean (column dd (rows X))) (seq 0 (width X)).

(** ** Exceptions of each routine *)

(** [X] holds a [nan]. *)
Definition has_nan (X : mat) : bool := existsb (existsb fisnan) (rows X).

Definition measure_dist_raises : list error :=
  [MoreCentersThanPoints; BroadcastError].

Definition assign_raises : list error :=
  [WidthMismatch; MoreCentersThanPoints; BroadcastError; EmptyReduction].

Definition calc_centers_raises : list error :=
  [LabelCountMismatch; WidthMismatch; IndexOutOfBounds;
   MoreCentersThanPoints; BroadcastError; EmptyReduction].

(** The exceptions of [np.random.choice]. *)
Definition choice_raises : list error :=
  [ProbabilitiesNaN; ProbabilitiesNegative; ProbabilitiesSum].

(** The exceptions of [init_centers] past its two guards on [k]. *)
Definition seeding_raises : list error :=
  [BoolDimension; EmptyRange; IndexOutOfBounds; MoreCentersThanPoints; BroadcastError;
   EmptyReduction; EmptyPopulation; ProbabilitiesNaN; ProbabilitiesNegative; ProbabilitiesSum].

(** [isinstance(k, int)] *)
Definition isinstance_int (k : pyobj) : bool :=
  match k with
  | PyInt _ => true
  | _ => false
  end.

(** ** Sums

    [sum_of l v]: [v] is the result of adding the elements of [l], each
    once, in some order and grouping, the identity [-0.0] standing for
    an empty group. *)
Inductive sum_of : list float -> float -> Prop :=
  | sum_of_identity : sum_of [] (-0)%float
  | sum_of_one x : sum_of [x] x
  | sum_of_add l1 l2 v1 v2 :
      sum_of l1 v1 -> sum_of l2 v2 -> sum_of (l1 ++ l2) (v1 + v2)%float
  | sum_of_perm l l' v : l ≡ₚ l' -> sum_of l v -> sum_of l' v.

(** ** Tactics *)

(** A comparison of floats, by cases on the two values. *)
Ltac float_order :=
  rewrite ?FloatAxioms.leb_spec, ?FloatAxioms.ltb_spec, ?FloatAxioms.eqb_spec in *;
  unfold SFleb, SFltb, SFeqb in *;
  repeat match goal with
         | |- context [Prim2SF ?x] =>
             let s := fresh "s" in let m := fresh "m" in let e := fresh "e" in
             destruct (Prim2SF x) as [s|s| |s m e]
         | H : context [Prim2SF ?x] |- _ =>
             let s := fresh "s" in let m := fresh "m" in let e := fresh "e" in
             destruct (Prim2SF x) as [s|s| |s m e]
         end;
  simpl in *; try done;
  repeat match goal with s : bool |- _ => destruct s end; simpl in *; try done;
  repeat match goal with
         | |- context [Z.compare ?a ?b] => destruct (Z.compare_spec a b); simpl in *
         | H : context [Z.compare ?a ?b] |- _ => destruct (Z.compare_spec a b); simpl in *
         end; try done; try lia;
  subst; rewrite ?Pos.compare_cont_spec in *; simpl in *;
  repeat match goal with
         | |- context [Pos.compare ?a ?b] => destruct (Pos.compare_spec a b); simpl in *
         | H : context [Pos.compare ?a ?b] |- _ => destruct (Pos.compare_spec a b); simpl in *
         end; try done; try lia.

(** The real value of a float constant. *)
Ltac real_values :=
  cbn [map]; unfold B2R;
  repeat match goal with
         | |- context [B2Q ?x] =>
             let v := eval vm_compute in (B2Q x) in change (B2Q x) with v
         end;
  unfold Q2R; cbn [Qnum Qden map].

(** Membership in a list of exceptions. *)
Ltac in_list :=
  repeat match goal with
         | H : _ ∈ _ :: _ |- _ =>
             apply elem_of_cons in H as [H|H]; [try discriminate H; try subst|]
         | H : _ ∈ [] |- _ => by apply elem_of_nil in H
         end;
  rewrite ?elem_of_cons; try tauto.

(** The two directions of an equivalence between an outcome of a
    routine and a condition on its arguments, once the outcome is
    known. *)
Ltac outcome :=
  split;
  [ match goal with
    | |- (exists _, _) -> _ =>
        first [ by intros [? ?] | intros _; repeat split; first [done | lia] ]
    | |- _ -> _ =>
        first [ by intros ? | intros _; repeat split; first [done | lia] ]
    end
  | intros ?; first [ reflexivity | by eexists | exfalso; first [lia | tauto] ] ].

(** * Properties *)

(** ** Binary64 arithmetic *)

Section Binary64.
Local Open Scope float_scope.

Lemma SFcompare_refl (x : spec_float) : x <> S754_nan -> SFcompare x x = Some Eq.
Proof.
  destruct x as [s|s| |s m e]; try done; intros _; simpl.
  - by destruct s.
  - rewrite Z.compare_refl, Pos.compare_cont_refl. by destruct s.
Qed.

Lemma fisnan_spec (x : float) : fisnan x = true <-> x = nan.
Proof.
  unfold fisnan, is_nan. rewrite FloatAxioms.eqb_spec. unfold SFeqb. split.
  - intros H. apply Prim2SF_inj. destruct (Prim2SF x) eqn:Hx; try done.
    all: rewrite SFcompare_refl in H; done.
  - by intros ->.
Qed.

Lemma fisnan_Prim2SF (x : float) : fisnan x = false <-> Prim2SF x <> S754_nan.
Proof.
  rewrite <- not_true_iff_false, fisnan_spec. split.
  - intros H Hx. apply H, Prim2SF_inj. by rewrite Hx.
  - by intros H ->.
Qed.

Lemma add_nan_l (y : float) : nan + y = nan.
Proof. apply Prim2SF_inj. by rewrite add_spec. Qed.

Lemma add_nan_r (x : float) : x + nan = nan.
Proof. apply Prim2SF_inj. rewrite add_spec. simpl (Prim2SF nan). by destruct (Prim2SF x). Qed.

Lemma sub_nan_l (y : float) : nan - y = nan.
Proof. apply Prim2SF_inj. by rewrite sub_spec. Qed.

Lemma sub_nan_r (x : float) : x - nan = nan.
Proof. apply Prim2SF_inj. rewrite sub_spec. simpl (Prim2SF nan). by destruct (Prim2SF x). Qed.

Lemma mul_nan_l (y : float) : nan * y = nan.
Proof. apply Prim2SF_inj. by rewrite mul_spec. Qed.

Lemma div_nan_l (y : float) : nan / y = nan.
Proof. apply Prim2SF_inj. by rewrite div_spec. Qed.

Lemma div_nan_r (x : float) : x / nan = nan.
Proof. apply Prim2SF_inj. rewrite div_spec. simpl (Prim2SF nan). by destruct (Prim2SF x). Qed.

Lemma fsquare_nan : fsquare nan = nan.
Proof. reflexivity. Qed.

(** *** The order of the comparisons *)

Lemma leb_nan_l (x : float) : (nan <=? x) = false.
Proof. by rewrite FloatAxioms.leb_spec. Qed.

Lemma leb_nan_r (x : float) : (x <=? nan) = false.
Proof.
  rewrite FloatAxioms.leb_spec. unfold SFleb. simpl (Prim2SF nan).
  by destruct (Prim2SF x).
Qed.

Lemma ltb_nan_l (x : float) : (nan <? x) = false.
Proof. by rewrite FloatAxioms.ltb_spec. Qed.

Lemma ltb_nan_r (x : float) : (x <? nan) = false.
Proof.
  rewrite FloatAxioms.ltb_spec. unfold SFltb. simpl (Prim2SF nan).
  by destruct (Prim2SF x).
Qed.

Lemma leb_refl (x : float) : fisnan x = false -> (x <=? x) = true.
Proof.
  intros Hx%fisnan_Prim2SF. rewrite FloatAxioms.leb_spec. unfold SFleb.
  by rewrite SFcompare_refl.
Qed.

Lemma ltb_leb (x y : float) : (x <? y) = true -> (x <=? y) = true.
Proof. intros H. float_order. Qed.

Lemma leb_false_ltb (x y : float) :
  fisnan x = false -> fisnan y = false -> (x <=? y) = false -> (y <? x) = true.
Proof.
  intros Hx%fisnan_Prim2SF Hy%fisnan_Prim2SF H. float_order.
Qed.

Lemma leb_false_not_leb (x y : float) :
  fisnan x = false -> fisnan y = false -> (x <=? y) = false -> (y <=? x) = true.
Proof. intros Hx Hy H. by apply ltb_leb, leb_false_ltb. Qed.

Lemma leb_trans (x y z : float) :
  (x <=? y) = true -> (y <=? z) = true -> (x <=? z) = true.
Proof. intros H1 H2. float_order. Qed.

Lemma ltb_leb_trans (x y z : float) :
  (x <? y) = true -> (y <=? z) = true -> (x <? z) = true.
Proof. intros H1 H2. float_order. Qed.

Lemma leb_ltb_trans (x y z : float) :
  (x <=? y) = true -> (y <? z) = true -> (x <? z) = true.
Proof. intros H1 H2. float_order. Qed.

Lemma ltb_irrefl (x : float) : (x <? x) = false.
Proof.
  destruct (fisnan x) eqn:Hx.
  - apply fisnan_spec in Hx as ->. reflexivity.
  - apply fisnan_Prim2SF in Hx. rewrite FloatAxioms.ltb_spec. unfold SFltb.
    by rewrite SFcompare_refl.
Qed.

Lemma leb_not_nan_l (x y : float) : (x <=? y) = true -> fisnan x = false.
Proof.
  intros H. apply not_true_iff_false. intros ->%fisnan_spec. by rewrite leb_nan_l in H.
Qed.

Lemma leb_not_nan_r (x y : float) : (x <=? y) = true -> fisnan y = false.
Proof.
  intros H. apply not_true_iff_false. intros ->%fisnan_spec. by rewrite leb_nan_r in H.
Qed.

(** *** Zeros *)

Lemma is_zero_cases (x : float) : (x =? 0) = true -> x = 0 \/ x = (-0).
Proof.
  rewrite FloatAxioms.eqb_spec. unfold SFeqb. simpl (Prim2SF 0).
  destruct (Prim2SF x) as [s|s| |s m e] eqn:Hx; simpl; try done.
  - intros _. destruct s; [right|left]; apply Prim2SF_inj; by rewrite Hx.
  - by destruct s.
  - by destruct s.
Qed.

Lemma sign_cases (x : float) :
  x = nan \/ (x =? 0) = true \/ (x <? 0) = true \/ (0 <? x) = true.
Proof.
  destruct (fisnan x) eqn:Hn; [left; by apply fisnan_spec|right].
  apply fisnan_Prim2SF in Hn.
  rewrite FloatAxioms.eqb_spec, !FloatAxioms.ltb_spec. unfold SFeqb, SFltb. simpl (Prim2SF 0).
  destruct (Prim2SF x) as [s|s| |s m e]; simpl; try done; destruct s; auto.
Qed.

(** [0 / s] is never positive. *)
Lemma zero_div_not_pos (s : float) : (0 <? 0 / s) = false.
Proof.
  rewrite FloatAxioms.ltb_spec, div_spec. unfold SFltb. simpl (Prim2SF 0).
  by destruct (Prim2SF s) as [sy|sy| |sy my ey].
Qed.

(** *** Signs *)

Lemma nonneg_Prim2SF (x : float) : nonneg x <-> SFnonneg (Prim2SF x).
Proof. unfold nonneg, SFnonneg. by rewrite FloatAxioms.leb_spec. Qed.

Lemma iter_pos_invariant {A : Type} (P : A -> Prop) (f : A -> A) (n : positive) (x : A) :
  (forall y, P y -> P (f y)) -> P x -> P (SpecFloat.iter_pos f n x).
Proof.
  intros Hf. revert x. induction n as [n IH|n IH|]; intros x Hx; simpl; auto.
Qed.

Lemma shr_1_nonneg (mrs : shr_record) : (0 <= shr_m mrs)%Z -> (0 <= shr_m (shr_1 mrs))%Z.
Proof.
  destruct mrs as [m r s]. simpl. destruct m as [|[p|p|]|[p|p|]]; simpl; lia.
Qed.

Lemma shr_fexp_nonneg (m e : Z) (l : location) :
  (0 <= m)%Z -> (0 <= shr_m (shr_fexp prec emax m e l).1)%Z.
Proof.
  intros Hm. unfold shr_fexp, shr.
  assert (0 <= shr_m (shr_record_of_loc m l))%Z as H0.
  { destruct l as [|[]]; simpl; lia. }
  destruct (_ - e)%Z; simpl; try done.
  apply (iter_pos_invariant (fun mrs => 0 <= shr_m mrs)%Z); [apply shr_1_nonneg|done].
Qed.

Lemma round_nearest_even_nonneg (m : Z) (l : location) :
  (0 <= m)%Z -> (0 <= round_nearest_even m l)%Z.
Proof. intros Hm. destruct l as [|[]]; simpl; try lia. destruct (Z.even m); lia. Qed.

Lemma binary_round_aux_nonneg (m e : Z) (l : location) :
  (0 <= m)%Z -> SFnonneg (binary_round_aux prec emax false m e l).
Proof.
  intros Hm. unfold binary_round_aux.
  pose proof (shr_fexp_nonneg m e l Hm) as H1.
  destruct (shr_fexp prec emax m e l) as [mrs' e']. simpl in H1.
  pose proof (shr_fexp_nonneg (round_nearest_even (shr_m mrs') (loc_of_shr_record mrs')) e'
                loc_Exact (round_nearest_even_nonneg _ _ H1)) as H2.
  destruct (shr_fexp prec emax _ e' loc_Exact) as [mrs'' e'']. simpl in H2.
  destruct (shr_m mrs''); [done| |lia].
  by destruct (_ <=? _)%Z.
Qed.

Lemma add_nonneg (x y : float) : nonneg x -> nonneg y -> nonneg (x + y).
Proof.
  rewrite !nonneg_Prim2SF, add_spec. unfold SFnonneg, SFleb.
  destruct (Prim2SF x) as [sx|sx| |sx mx ex], (Prim2SF y) as [sy|sy| |sy my ey];
    simpl; try done; try (by destruct sx, sy).
  destruct sx, sy; try done. intros _ _.
  unfold SF64add, SFadd, binary_normalize. simpl cond_Zopp.
  rewrite <- Pos2Z.inj_add. unfold binary_round.
  destruct (shl_align _ _ _) as [mz ez]. by apply binary_round_aux_nonneg.
Qed.

Lemma fsquare_nonneg (x : float) : fisnan x = false -> nonneg (fsquare x).
Proof.
  intros Hx%fisnan_Prim2SF. unfold fsquare. rewrite nonneg_Prim2SF, mul_spec.
  destruct (Prim2SF x) as [sx|sx| |sx mx ex]; try done; try (by destruct sx).
  unfold SF64mul, SFmul. rewrite xorb_nilpotent. by apply binary_round_aux_nonneg.
Qed.

Lemma sqrt_nonneg (x : float) : nonneg x -> nonneg (PrimFloat.sqrt x).
Proof.
  rewrite !nonneg_Prim2SF, sqrt_spec.
  destruct (Prim2SF x) as [sx|sx| |sx mx ex]; try done; try (by destruct sx).
  destruct sx; [done|]. intros _. unfold SF64sqrt, SFsqrt, SFsqrt_core_binary.
  set (m' := match _ with Z.pos _ => _ | _ => _ end).
  assert (0 <= m')%Z as Hm'.
  { unfold m'. destruct (_ - _)%Z; try lia. rewrite Z.shiftl_mul_pow2 by lia. lia. }
  pose proof (Z.sqrtrem_spec m' Hm') as Hs.
  destruct (Z.sqrtrem m') as [q r]. apply binary_round_aux_nonneg. lia.
Qed.

(** *** Finite values *)

Lemma sub_diag (x : float) : finite x -> x - x = 0.
Proof.
  unfold finite. intros Hx. apply Prim2SF_inj. rewrite sub_spec.
  destruct (Prim2SF x) as [sx|sx| |sx mx ex]; try done.
  - by destruct sx.
  - unfold SF64sub, SFsub. by rewrite Z.sub_diag.
Qed.

Lemma finite_not_nan (x : float) : finite x -> fisnan x = false.
Proof. intros Hx. apply fisnan_Prim2SF. unfold finite in Hx. by destruct (Prim2SF x). Qed.

Lemma add_zeros (x y : float) : (x =? 0) = true -> (y =? 0) = true -> (x + y =? 0) = true.
Proof.
  intros [->| ->]%is_zero_cases [->| ->]%is_zero_cases; reflexivity.
Qed.

Lemma nonneg_not_nan (x : float) : nonneg x -> fisnan x = false.
Proof. by apply leb_not_nan_r. Qed.

Lemma binary_round_aux_not_nan (sx : bool) (m e : Z) (l : location) :
  (0 <= m)%Z -> binary_round_aux prec emax sx m e l <> S754_nan.
Proof.
  intros Hm. unfold binary_round_aux.
  pose proof (shr_fexp_nonneg m e l Hm) as H1.
  destruct (shr_fexp prec emax m e l) as [mrs' e']. simpl in H1.
  pose proof (shr_fexp_nonneg (round_nearest_even (shr_m mrs') (loc_of_shr_record mrs')) e'
                loc_Exact (round_nearest_even_nonneg _ _ H1)) as H2.
  destruct (shr_fexp prec emax _ e' loc_Exact) as [mrs'' e'']. simpl in H2.
  destruct (shr_m mrs''); [done| |lia].
  by destruct (_ <=? _)%Z.
Qed.

Lemma binary_normalize_not_nan (m e : Z) (s : bool) :
  binary_normalize prec emax m e s <> S754_nan.
Proof.
  unfold binary_normalize, binary_round. destruct m as [|p|p]; [done| |];
    destruct (shl_align _ _ _) as [mz ez]; by apply binary_round_aux_not_nan.
Qed.

Lemma sub_finite_not_nan (x y : float) : finite x -> finite y -> fisnan (x - y) = false.
Proof.
  unfold finite. intros Hx Hy. apply fisnan_Prim2SF. rewrite sub_spec.
  destruct (Prim2SF x) as [sx|sx| |sx mx ex], (Prim2SF y) as [sy|sy| |sy my ey]; try done.
  - by destruct sx, sy.
  - unfold SF64sub, SFsub. apply binary_normalize_not_nan.
Qed.

Lemma fsquare_zero (x : float) : (x =? 0) = true -> (fsquare x =? 0) = true.
Proof. by intros [->| ->]%is_zero_cases. Qed.

Lemma sqrt_zero (x : float) : (x =? 0) = true -> (PrimFloat.sqrt x =? 0) = true.
Proof. by intros [->| ->]%is_zero_cases. Qed.

(** *** Exact operations *)

Lemma div_eucl_exact (a b : Z) : (0 < b)%Z -> Z.div_eucl (a * b) b = (a, 0%Z).
Proof.
  intros Hb. pose proof (Z.div_mul a b ltac:(lia)) as Hq.
  pose proof (Z.mod_mul a b ltac:(lia)) as Hr.
  unfold Z.div, Z.modulo in *. destruct (Z.div_eucl (a * b) b) as [q r]. simpl in *. congruence.
Qed.

Lemma binary_round_aux_exact (s : bool) (m : positive) (e : Z) :
  bounded prec emax m e = true ->
  binary_round_aux prec emax s (Zpos m) e loc_Exact = S754_finite s m e.
Proof.
  intros Hb. unfold bounded, canonical_mantissa in Hb.
  apply andb_prop in Hb as [Hc He]. apply Z.eqb_eq in Hc.
  unfold binary_round_aux, shr_fexp. cbn [Zdigits2]. rewrite Hc, Z.sub_diag.
  cbn [shr shr_record_of_loc shr_m loc_of_shr_record round_nearest_even Zdigits2].
  rewrite Hc, Z.sub_diag. cbn [shr shr_m]. by rewrite He.
Qed.

Lemma binary_round_aux_double (s : bool) (m : positive) (e : Z) :
  bounded prec emax m e = true ->
  binary_round_aux prec emax s (Zpos m~0) (e - 1) loc_Exact = S754_finite s m e.
Proof.
  intros Hb. pose proof Hb as Hb'. unfold bounded, canonical_mantissa in Hb.
  apply andb_prop in Hb as [Hc He]. apply Z.eqb_eq in Hc.
  unfold binary_round_aux at 1, shr_fexp at 1. cbn [Zdigits2 digits2_pos].
  replace (Z.pos (Pos.succ (digits2_pos m)) + (e - 1))%Z with (Z.pos (digits2_pos m) + e)%Z by lia.
  rewrite Hc. replace (e - (e - 1))%Z with 1%Z by lia.
  cbn [shr shr_record_of_loc SpecFloat.iter_pos shr_1 shr_m loc_of_shr_record round_nearest_even orb].
  replace (e - 1 + 1)%Z with e by lia.
  unfold shr_fexp. cbn [Zdigits2]. rewrite Hc, Z.sub_diag.
  cbn [shr shr_record_of_loc shr_m]. by rewrite He.
Qed.

(** Dividing by one is exact. *)
Lemma div_one (x : float) : x / 1 = x.
Proof.
  apply Prim2SF_inj. rewrite div_spec.
  pose proof (Prim2SF_valid x) as Hv.
  change (Prim2SF 1) with (S754_finite false 4503599627370496 (-52)).
  destruct (Prim2SF x) as [s|s| |s m e]; try (by destruct s); try done.
  cbn [valid_binary] in Hv. pose proof Hv as Hb.
  unfold bounded, canonical_mantissa in Hv.
  apply andb_prop in Hv as [Hc He]. apply Z.eqb_eq in Hc. apply Z.leb_le in He.
  unfold SF64div. cbn [SFdiv]. rewrite xorb_false_r.
  unfold SFdiv_core_binary. cbn [Zdigits2].
  change (Z.pos (digits2_pos 4503599627370496)) with 53%Z.
  set (d := Z.pos (digits2_pos m)) in *.
  assert (0 < d)%Z as Hd by (unfold d; lia).
  unfold fexp, SpecFloat.emin, emax, prec in *.
  destruct (decide (e = -1074)%Z) as [->|Hne].
  - replace (Z.min _ _) with (-1074)%Z by lia.
    replace (-1074 - -52 - -1074)%Z with 52%Z by lia.
    rewrite Z.shiftl_mul_pow2 by lia.
    rewrite div_eucl_exact by lia.
    change (new_location 4503599627370496 0) with loc_Exact.
    by apply binary_round_aux_exact.
  - replace (Z.min _ _) with (e - 1)%Z by lia.
    replace (e - -52 - (e - 1))%Z with 53%Z by lia.
    rewrite Z.shiftl_mul_pow2 by lia.
    replace (Z.pos m * 2 ^ 53)%Z with (Z.pos m~0 * 4503599627370496)%Z by lia.
    rewrite div_eucl_exact by lia.
    change (new_location 4503599627370496 0) with loc_Exact.
    by apply binary_round_aux_double.
Qed.

(** [-0.0] is the neutral element of the addition. *)
Lemma neg_zero_add (x : float) : (-0) + x = x.
Proof.
  apply Prim2SF_inj. rewrite add_spec.
  change (Prim2SF (-0)) with (S754_zero true).
  destruct (Prim2SF x) as [s|s| |s m e]; try done. by destruct s.
Qed.

End Binary64.

(** ** The exception monad *)

Lemma traverse_ok_map {A B : Type} (f : A -> result B) (h : A -> B) (l : list A) :
  (forall a, a ∈ l -> f a = Ok (h a)) -> traverse f l = Ok (map h l).
Proof.
  induction l as [|a l IH]; intros Hf; simpl; [done|].
  rewrite Hf by left. simpl. rewrite IH; [done|].
  intros b Hb. apply Hf. by right.
Qed.

Lemma traverse_ok_length {A B : Type} (f : A -> result B) (l : list A) (bs : list B) :
  traverse f l = Ok bs -> length bs = length l.
Proof.
  revert bs. induction l as [|a l IH]; intros bs; simpl.
  - by intros [= <-].
  - destruct (f a) as [b|e]; simpl; [|done].
    destruct (traverse f l) as [bs'|e]; simpl; [|done].
    intros [= <-]. simpl. f_equal. by apply IH.
Qed.

Lemma traverse_ok_lookup {A B : Type} (f : A -> result B) (l : list A) (bs : list B) i a :
  traverse f l = Ok bs -> l !! i = Some a ->
  exists b, bs !! i = Some b /\ f a = Ok b.
Proof.
  revert bs i. induction l as [|a' l IH]; intros bs i; simpl; [done|].
  destruct (f a') as [b|e] eqn:Hb; simpl; [|done].
  destruct (traverse f l) as [bs'|e]; simpl; [|done].
  intros [= <-] Hi. destruct i as [|i]; simpl in *.
  - injection Hi as ->. eauto.
  - by apply IH.
Qed.

Lemma traverse_err {A B : Type} (f : A -> result B) (l : list A) e :
  traverse f l = Err e -> exists a, a ∈ l /\ f a = Err e.
Proof.
  induction l as [|a l IH]; simpl; [done|].
  destruct (f a) as [b|e'] eqn:Hb; simpl.
  - destruct (traverse f l) as [bs'|e'']; simpl; [done|].
    intros [= ->]. destruct IH as (a' & ? & ?); [done|].
    exists a'. split; [by right|done].
  - intros [= ->]. exists a. split; [by left|done].
Qed.

Lemma traverse_ext {A B : Type} (f f' : A -> result B) (l : list A) :
  (forall a, a ∈ l -> f a = f' a) -> traverse f l = traverse f' l.
Proof.
  induction l as [|a l IH]; intros Hf; simpl; [done|].
  rewrite Hf by left. rewrite IH; [done|].
  intros b Hb. apply Hf. by right.
Qed.

Lemma traverse_fmap {A B E : Type} (f : B -> result E) (h : A -> B) (l : list A) :
  traverse f (map h l) = traverse (fun a => f (h a)) l.
Proof. induction l as [|a l IH]; simpl; [done|]. by rewrite IH. Qed.

Lemma traverse_total {A B : Type} (f : A -> result B) (l : list A) :
  (forall a, a ∈ l -> exists b, f a = Ok b) -> exists bs, traverse f l = Ok bs.
Proof.
  induction l as [|a l IH]; intros Hf; simpl; [by eexists|].
  destruct (Hf a) as [b ->]; [by left|].
  destruct IH as [bs ->]; [|by eexists].
  intros a' Ha'. apply Hf. by right.
Qed.

Lemma traverse_lookup_spec {A B : Type} (f : A -> result B) (Q : nat -> B -> Prop)
    (l : list A) :
  (forall i a, l !! i = Some a -> exists b, f a = Ok b /\ Q i b) ->
  exists bs, traverse f l = Ok bs /\ length bs = length l /\
             forall i b, bs !! i = Some b -> Q i b.
Proof.
  revert Q. induction l as [|a l IH]; intros Q Hf; simpl.
  - exists []. by repeat split.
  - destruct (Hf 0 a eq_refl) as (b & -> & Hb). simpl.
    destruct (IH (fun i => Q (S i))) as (bs & -> & Hlen & Hbs).
    { intros i a' Ha'. by apply (Hf (S i)). }
    exists (b :: bs). simpl. repeat split; [by rewrite Hlen|].
    intros [|i] b' Hb'; simpl in Hb'.
    + by injection Hb' as <-.
    + by apply Hbs.
Qed.

Lemma for_each_err {S A : Type} (body : S -> A -> result S) (l : list A) (s : S) e :
  for_each body l s = Err e -> exists s' a, a ∈ l /\ body s' a = Err e.
Proof.
  revert s. induction l as [|a l IH]; intros s; simpl; [done|].
  destruct (body s a) as [s'|e'] eqn:Hb; simpl.
  - intros (s'' & a' & ? & ?)%IH. exists s'', a'. split; [by right|done].
  - intros [= ->]. exists s, a. split; [by left|done].
Qed.

Lemma for_each_ext {S A : Type} (body body' : S -> A -> result S) (l : list A) (s : S) :
  (forall s' a, a ∈ l -> body s' a = body' s' a) ->
  for_each body l s = for_each body' l s.
Proof.
  revert s. induction l as [|a l IH]; intros s Hb; simpl; [done|].
  rewrite Hb by left. destruct (body' s a) as [s'|e]; simpl; [|done].
  apply IH. intros s'' a' Ha'. apply Hb. by right.
Qed.

Lemma for_each_seq_invariant {S : Type} (body : S -> nat -> result S)
    (Inv : nat -> S -> Prop) (len : nat) :
  forall (start : nat) (s : S),
    Inv start s ->
    (forall m s, start <= m < start + len -> Inv m s ->
                 exists s', body s m = Ok s' /\ Inv (Datatypes.S m) s') ->
    exists s', for_each body (seq start len) s = Ok s' /\ Inv (start + len) s'.
Proof.
  induction len as [|len IH]; intros start s Hs Hstep; simpl.
  - exists s. by rewrite Nat.add_0_r.
  - destruct (Hstep start s) as (s1 & -> & Hs1); [lia|done|]. simpl.
    destruct (IH (Datatypes.S start) s1) as (s' & Hs' & Hinv); [done| |].
    { intros m s2 Hm. apply Hstep. lia. }
    exists s'. split; [done|]. by replace (start + Datatypes.S len) with (Datatypes.S start + len) by lia.
Qed.

Lemma for_each_seq_preserves {S : Type} (body : S -> nat -> result S)
    (Inv : nat -> S -> Prop) (len : nat) :
  forall (start : nat) (s s' : S),
    Inv start s ->
    (forall m s s', start <= m < start + len -> Inv m s -> body s m = Ok s' ->
                    Inv (Datatypes.S m) s') ->
    for_each body (seq start len) s = Ok s' -> Inv (start + len) s'.
Proof.
  induction len as [|len IH]; intros start s s' Hs Hstep; simpl.
  - intros [= <-]. by rewrite Nat.add_0_r.
  - destruct (body s start) as [s1|e] eqn:Hb; simpl; [|done].
    intros Hloop. replace (start + Datatypes.S len) with (Datatypes.S start + len) by lia.
    apply (IH (Datatypes.S start) s1); [|intros m s2 s3 Hm; apply Hstep; lia|done].
    eapply Hstep; [|done..]. lia.
Qed.

Lemma for_each_seq_err {S : Type} (body : S -> nat -> result S)
    (Inv : nat -> S -> Prop) (len : nat) (e : error) :
  forall (start : nat) (s : S),
    Inv start s ->
    (forall m s s', start <= m < start + len -> Inv m s -> body s m = Ok s' ->
                    Inv (Datatypes.S m) s') ->
    for_each body (seq start len) s = Err e ->
    exists m s', start <= m < start + len /\ Inv m s' /\ body s' m = Err e.
Proof.
  induction len as [|len IH]; intros start s Hs Hstep; simpl; [done|].
  destruct (body s start) as [s1|e'] eqn:Hb; simpl.
  - intros Hloop. destruct (IH (Datatypes.S start) s1) as (m & s' & Hm & Hinv & He).
    + eapply Hstep; [|done..]. lia.
    + intros m s2 s3 Hm. apply Hstep. lia.
    + done.
    + exists m, s'. split; [lia|done].
  - intros [= ->]. exists start, s. split; [lia|done].
Qed.


(** ** [np.sum] *)

Section Sums.
Local Open Scope float_scope.

Lemma seq_sum_sum_of (la l : list float) (acc : float) :
  sum_of la acc -> sum_of (la ++ l) (seq_sum acc l).
Proof.
  revert la acc. induction l as [|x l IH]; intros la acc Hacc; simpl.
  - by rewrite app_nil_r.
  - replace (la ++ x :: l) with ((la ++ [x]) ++ l) by by rewrite <- app_assoc.
    apply IH. apply sum_of_add; [done|constructor].
Qed.

Lemma concat_snoc_perm {A : Type} (ls : list (list A)) (xs : list A) :
  length ls = length xs ->
  concat (zip_with (fun a x => a ++ [x]) ls xs) ≡ₚ concat ls ++ xs.
Proof.
  revert xs. induction ls as [|a ls IH]; intros [|x xs] Hlen; simpl in *; try done.
  rewrite IH by lia. rewrite <- !app_assoc. f_equiv. simpl.
  by rewrite Permutation_middle.
Qed.

Lemma zip_with_add_sum_of (ls : list (list float)) (r xs : list float) :
  Forall2 sum_of ls r -> length xs = length r ->
  Forall2 sum_of (zip_with (fun a x => a ++ [x]) ls xs) (zip_with PrimFloat.add r xs).
Proof.
  intros Hr. revert xs. induction Hr as [|a v ls r Hav _ IH]; intros [|x xs] Hlen;
    simpl in *; try done.
  constructor; [|apply IH; lia]. apply sum_of_add; [done|constructor].
Qed.

Lemma accumulate8_sum_of (steps : nat) :
  forall (r l : list float) (ls : list (list float)),
    Forall2 sum_of ls r -> length r = 8%nat -> (8 * steps <= length l)%nat ->
    exists ls' r' rest,
      accumulate8 steps r l = (r', rest) /\ Forall2 sum_of ls' r' /\ length r' = 8%nat /\
      concat ls' ++ rest ≡ₚ concat ls ++ l.
Proof.
  induction steps as [|steps IH]; intros r l ls Hr Hlen Hl; simpl.
  - by exists ls, r, l.
  - assert (length (take 8 l) = 8%nat) as Ht by (rewrite length_take; lia).
    destruct (IH (zip_with PrimFloat.add r (take 8 l)) (drop 8 l)
                (zip_with (fun a x => a ++ [x]) ls (take 8 l)))
      as (ls' & r' & rest & Hacc & Hr' & Hlen' & Hperm).
    + apply zip_with_add_sum_of; [done|lia].
    + rewrite length_zip_with. lia.
    + rewrite length_drop. lia.
    + exists ls', r', rest. split; [done|]. split; [done|]. split; [done|].
      rewrite Hperm, concat_snoc_perm.
      * rewrite <- app_assoc. by rewrite take_drop.
      * apply Forall2_length in Hr. lia.
Qed.

Lemma block_sum_sum_of (l : list float) : (8 <= length l)%nat -> sum_of l (block_sum l).
Proof.
  intros Hl. unfold block_sum.
  assert (length (take 8 l) = 8%nat) as Ht by (rewrite length_take; lia).
  destruct (accumulate8_sum_of (length l / 8 - 1) (take 8 l) (drop 8 l)
              (map (fun x => [x]) (take 8 l)))
    as (ls' & r' & rest & -> & Hr' & Hlen' & Hperm).
  - apply Forall2_fmap_l, Forall_Forall2_diag, Forall_forall. intros x _. constructor.
  - done.
  - rewrite length_drop. pose proof (Nat.div_mod_eq (length l) 8). lia.
  - destruct r' as [|r0 [|r1 [|r2 [|r3 [|r4 [|r5 [|r6 [|r7 [|? ?]]]]]]]]]; try done.
    destruct ls' as [|l0 [|l1 [|l2 [|l3 [|l4 [|l5 [|l6 [|l7 [|? ?]]]]]]]]];
      try (by apply Forall2_length in Hr').
    repeat match goal with H : Forall2 _ (_ :: _) (_ :: _) |- _ =>
             apply Forall2_cons in H as [? H] end.
    cbn [lookup_total list_lookup_total].
    apply (sum_of_perm (((((l0 ++ l1) ++ (l2 ++ l3)) ++ ((l4 ++ l5) ++ (l6 ++ l7)))) ++ rest)).
    + etransitivity; [|etransitivity; [exact Hperm|]].
      * simpl. rewrite app_nil_r, <- !app_assoc. done.
      * assert (concat (map (fun x : float => [x]) (take 8 l)) = take 8 l) as ->.
        { clear. induction (take 8 l) as [|x xs IH]; simpl; [done|]. by rewrite IH. }
        by rewrite take_drop.
    + apply seq_sum_sum_of. repeat apply sum_of_add; done.
Qed.

Lemma pairwise_sum_sum_of (fuel : nat) (l : list float) : sum_of l (pairwise_sum fuel l).
Proof.
  revert l. induction fuel as [|fuel IH]; intros l; simpl.
  - destruct (decide _); [apply (seq_sum_sum_of [] l), sum_of_identity|].
    destruct (decide _); apply block_sum_sum_of; lia.
  - destruct (decide _); [apply (seq_sum_sum_of [] l), sum_of_identity|].
    destruct (decide _); [apply block_sum_sum_of; lia|].
    rewrite <- (take_drop (length l / 2 - (length l / 2) mod 8) l) at 1.
    by apply sum_of_add.
Qed.

Lemma np_sum_sum_of (l : list float) : l <> [] -> sum_of l (np_sum l).
Proof.
  intros Hl. unfold np_sum. destruct l as [|x l]; [done|].
  apply (sum_of_add [] (x :: l)); [constructor|apply pairwise_sum_sum_of].
Qed.

(** What holds of every element and of the identity, and is kept by
    the addition, holds of the sum. *)
Lemma sum_of_closed (P : float -> Prop) (l : list float) (v : float) :
  P (-0) -> (forall x y, P x -> P y -> P (x + y)) ->
  sum_of l v -> Forall P l -> P v.
Proof.
  intros H0 Hadd. induction 1 as [|x|l1 l2 v1 v2 _ IH1 _ IH2|l l' v Hperm _ IH]; intros Hl.
  - done.
  - by inversion Hl.
  - apply Forall_app in Hl as [H1 H2]. auto.
  - apply IH. by rewrite Hperm.
Qed.

(** A [nan] among the elements makes the sum [nan]. *)
Lemma sum_of_nan (l : list float) (v : float) : sum_of l v -> nan ∈ l -> v = nan.
Proof.
  induction 1 as [|x|l1 l2 v1 v2 _ IH1 _ IH2|l l' v Hperm _ IH]; intros Hin.
  - by apply elem_of_nil in Hin.
  - by apply list_elem_of_singleton in Hin.
  - apply elem_of_app in Hin as [Hin|Hin].
    + rewrite (IH1 Hin). apply add_nan_l.
    + rewrite (IH2 Hin). apply add_nan_r.
  - apply IH. by rewrite Hperm.
Qed.

Lemma np_sum_nan (l : list float) : existsb fisnan l = true -> np_sum l = nan.
Proof.
  intros (x & Hx & ->%fisnan_spec)%existsb_exists. apply list_elem_of_In in Hx.
  apply (sum_of_nan l); [|done]. apply np_sum_sum_of. intros ->. by apply elem_of_nil in Hx.
Qed.

Lemma np_sum_nonneg (l : list float) : Forall nonneg l -> nonneg (np_sum l).
Proof.
  intros Hl. destruct l as [|x l]; [reflexivity|].
  apply (sum_of_closed nonneg (x :: l)); [reflexivity|apply add_nonneg| |done].
  by apply np_sum_sum_of.
Qed.

Lemma np_sum_zeros (l : list float) :
  Forall (fun x => (x =? 0) = true) l -> (np_sum l =? 0) = true.
Proof.
  intros Hl. destruct l as [|x l]; [reflexivity|].
  apply (sum_of_closed (fun x => (x =? 0) = true) (x :: l));
    [reflexivity|apply add_zeros| |done].
  by apply np_sum_sum_of.
Qed.

End Sums.

(** ** [measure_dist] *)

Section MeasureDist.
Local Open Scope float_scope.

Lemma dist_entry_same_length (pt c : list float) :
  length pt = length c -> dist_entry pt (Row c) = Ok (dist_value pt c).
Proof.
  intros Hlen. unfold dist_entry, broadcast_sub. by rewrite decide_True by done.
Qed.

Lemma measure_dist_same_width (X C : mat) :
  wf_mat X -> wf_mat C -> width X = width C -> (shape0 C <= shape0 X)%nat ->
  measure_dist X (Arr2 C)
  = Ok (Mat (shape0 C) (map (fun pt => map (dist_value pt) (rows C)) (rows X))).
Proof.
  intros HX HC Hw Hle. unfold measure_dist. cbn [nd_shape0 nd_cells].
  rewrite decide_False by lia.
  rewrite (traverse_ok_map _ (fun pt => map (dist_value pt) (rows C))); [done|].
  intros pt Hpt. rewrite traverse_fmap. apply traverse_ok_map. intros c Hc.
  apply dist_entry_same_length.
  unfold wf_mat in *. rewrite Forall_forall in HX. rewrite Forall_forall in HC.
  rewrite (HX pt Hpt), (HC c Hc). done.
Qed.

Lemma measure_dist_ok_shape (X : mat) (c : ndarray) (D : mat) :
  measure_dist X c = Ok D -> shape0 D = shape0 X /\ width D = nd_shape0 c.
Proof.
  unfold measure_dist. destruct (decide _); [done|].
  destruct (traverse _ _) as [D'|e] eqn:HD; simpl; [|done].
  intros [= <-]. split; [|done]. unfold shape0. simpl.
  by apply traverse_ok_length in HD.
Qed.

(** X1. [measure_dist] on an n x d array and an m x d array with
    [m <= n] never raises, whatever the entries ([nan] and the
    infinities included), and returns an n x m array. *)
Theorem measure_dist_shape (X C : mat) :
  wf_mat X -> wf_mat C -> width X = width C -> (shape0 C <= shape0 X)%nat ->
  exists D, measure_dist X (Arr2 C) = Ok D /\
            shape0 D = shape0 X /\ width D = shape0 C /\ wf_mat D.
Proof.
  intros HX HC Hw Hle. eexists. split; [by apply measure_dist_same_width|].
  unfold shape0, wf_mat. simpl. rewrite length_map. repeat split.
  apply Forall_forall. intros r (pt & -> & _)%list_elem_of_fmap.
  by rewrite length_map.
Qed.

Lemma measure_dist_shape_witness :
  exists D, measure_dist (Mat 2 [[nan; infinity]; [0; 1]]) (Arr2 (Mat 2 [[0; neg_infinity]])) = Ok D /\
            shape0 D = 2%nat /\ width D = 1%nat /\ wf_mat D.
Proof.
  apply (measure_dist_shape (Mat 2 [[nan; infinity]; [0; 1]]) (Mat 2 [[0; neg_infinity]])).
  - repeat constructor.
  - repeat constructor.
  - reflexivity.
  - unfold shape0. simpl. lia.
Defined.

(** X2. [measure_dist] does not compare the widths of its arguments:
    when they differ and neither is 1, the subtraction of line 151
    raises numpy's broadcasting exception (not the exception of the
    width test of [assign]). *)
Theorem measure_dist_width_mismatch (X C : mat) :
  wf_mat X -> wf_mat C -> (1 <= shape0 C <= shape0 X)%nat ->
  width X <> width C -> width C <> 1%nat -> width X <> 1%nat ->
  measure_dist X (Arr2 C) = Err BroadcastError /\
  kind_of BroadcastError = LibraryError.
Proof.
  intros HX HC [Hm Hmn] Hw HwC HwX. split; [|done].
  unfold measure_dist. cbn [nd_shape0 nd_cells]. rewrite decide_False by lia.
  unfold shape0, wf_mat in *.
  destruct (rows X) as [|pt rs]; [simpl in *; lia|].
  destruct (rows C) as [|c cs]; [simpl in *; lia|].
  apply Forall_cons in HX as [Hpt _]. apply Forall_cons in HC as [Hc _].
  assert (dist_entry pt (Row c) = Err BroadcastError) as Hentry.
  { unfold dist_entry, broadcast_sub. rewrite decide_False by congruence.
    destruct c as [|? [|? ?]], pt as [|? [|? ?]]; simpl in *; congruence. }
  cbn [traverse map]. by rewrite Hentry.
Qed.

Lemma measure_dist_width_mismatch_witness :
  measure_dist (Mat 3 [[0; 0; 0]]) (Arr2 (Mat 2 [[0; 0]]))
  = Err BroadcastError /\
  kind_of BroadcastError = LibraryError.
Proof.
  apply (measure_dist_width_mismatch (Mat 3 [[0; 0; 0]]) (Mat 2 [[0; 0]])).
  - repeat constructor.
  - repeat constructor.
  - unfold shape0. simpl. lia.
  - simpl. lia.
  - simpl. lia.
  - simpl. lia.
Defined.

Lemma map_sub_scalar (p : list float) (c : float) :
  map (fun x => x - c) p = zip_with PrimFloat.sub p (replicate (length p) c).
Proof.
  induction p as [|a p IH]; [done|].
  cbn [map length replicate zip_with]. f_equal. exact IH.
Qed.

Lemma dist_entry_width_one (p : list float) (c : float) :
  dist_entry p (Row [c]) = Ok (dist_value p (replicate (length p) c)).
Proof.
  unfold dist_entry, broadcast_sub, dist_value.
  destruct (decide (length p = length [c])) as [Hone|Hone].
  - by destruct p as [|a [|? ?]].
  - by rewrite map_sub_scalar.
Qed.



(** *** The computed distance *)

Lemma dist_value_nonneg (p c : list float) :
  Forall finite p -> Forall finite c -> nonneg (dist_value p c).
Proof.
  intros Hp Hc. unfold dist_value. apply sqrt_nonneg, np_sum_nonneg.
  apply Forall_fmap. revert c Hc. induction Hp as [|x p Hx _ IH]; intros [|y c] Hc;
    simpl; try by constructor.
  apply Forall_cons in Hc as [Hy Hc]. constructor; [|by apply IH].
  simpl. by apply fsquare_nonneg, sub_finite_not_nan.
Qed.

Lemma dist_value_diag (p : list float) : Forall finite p -> (dist_value p p =? 0) = true.
Proof.
  intros Hp. unfold dist_value. apply sqrt_zero, np_sum_zeros.
  apply Forall_fmap. induction Hp as [|x p Hx _ IH]; simpl; [by constructor|].
  constructor; [|done]. simpl. by rewrite sub_diag.
Qed.

Lemma dist_value_nan (pt c : list float) :
  length pt = length c -> existsb fisnan pt = true -> dist_value pt c = nan.
Proof.
  intros Hlen Hnan. unfold dist_value.
  rewrite np_sum_nan; [done|].
  revert c Hlen. induction pt as [|x pt IH]; intros [|y c] Hlen; simpl in *; try done.
  destruct (fisnan x) eqn:Hx.
  - apply fisnan_spec in Hx as ->. by rewrite sub_nan_l.
  - simpl in Hnan. rewrite IH by (done || lia). apply orb_true_r.
Qed.

(** The claim C7 fails on finite values whose squared difference
    overflows: the computed distance of [2^600] and [-2^600] is [inf],
    and their distance is [2^601].  On two equal rows that hold an
    infinity the computed distance is [nan], not 0. *)
Lemma measure_dist_overflows :
  measure_dist (Mat 1 [[0x1p600]]) (Arr2 (Mat 1 [[-0x1p600]])) = Ok (Mat 1 [[infinity]]) /\
  finite 0x1p600 /\ finite (-0x1p600) /\
  euclid (map B2R [0x1p600]) (map B2R [-0x1p600]) = IZR (2 ^ 601) /\
  measure_dist (Mat 1 [[infinity]]) (Arr2 (Mat 1 [[infinity]])) = Ok (Mat 1 [[nan]]).
Proof.
  split; [by vm_compute|]. split; [by vm_compute|]. split; [by vm_compute|].
  split; [|by vm_compute].
  real_values. unfold euclid, Rsum. simpl.
  set (N := (2 ^ 601)%Z). vm_compute in N. subst N.
  match goal with |- R_sqrt.sqrt ?a = ?b => replace a with (b * b)%R by lra end.
  apply sqrt_square. lra.
Qed.



End MeasureDist.

(** ** [np.argmin] and [np.argmax] *)

Lemma argmin_scan_bound (l : list float64) (mp : float64) (best i : nat) :
  best < i -> argmin_scan mp best i l < i + length l.
Proof.
  revert mp best i. induction l as [|x l IH]; intros mp best i Hb; simpl; [lia|].
  destruct (mp <=? x)%float.
  - specialize (IH mp best (S i)). lia.
  - destruct (fisnan x); [lia|]. specialize (IH x i (S i)). lia.
Qed.

Lemma np_argmin_bound (l : list float64) :
  l <> [] -> exists j, np_argmin l = Ok j /\ j < length l.
Proof.
  destruct l as [|x l]; [done|]. intros _. simpl.
  destruct (fisnan x); eexists; (split; [done|]); [lia|].
  pose proof (argmin_scan_bound l x 0 1). lia.
Qed.

Lemma argmax_scan_bound (l : list float64) (mp : float64) (best i : nat) :
  best < i -> argmax_scan mp best i l < i + length l.
Proof.
  revert mp best i. induction l as [|x l IH]; intros mp best i Hb; simpl; [lia|].
  destruct (x <=? mp)%float.
  - specialize (IH mp best (S i)). lia.
  - destruct (fisnan x); [lia|]. specialize (IH x i (S i)). lia.
Qed.

Lemma np_argmax_bound (l : list float64) :
  l <> [] -> exists j, np_argmax l = Ok j /\ j < length l.
Proof.
  destruct l as [|x l]; [done|]. intros _. simpl.
  destruct (fisnan x); eexists; (split; [done|]); [lia|].
  pose proof (argmax_scan_bound l x 0 1). lia.
Qed.

(** On an array without [nan], [np.argmin] returns the first index of
    the least value, in the order of the binary64 comparisons. *)
Lemma argmin_scan_spec (l : list float) (mp : float) (best i : nat) :
  fisnan mp = false -> Forall (fun x => fisnan x = false) l ->
  let j := argmin_scan mp best i l in
  (j = best /\ Forall (fun y => (mp <=? y)%float = true) l) \/
  (exists t x, j = i + t /\ l !! t = Some x /\ (x <? mp)%float = true /\
               Forall (fun y => (x <=? y)%float = true) l /\
               forall t' y, t' < t -> l !! t' = Some y -> (x <? y)%float = true).
Proof.
  intros Hmp Hl. revert mp best i Hmp.
  induction Hl as [|x l Hx _ IH]; intros mp best i Hmp; simpl.
  - left. split; [done|constructor].
  - destruct (mp <=? x)%float eqn:Hmx.
    + destruct (IH mp best (S i) Hmp) as [[Hj Hall]|(t & v & Hj & Ht & Hv & Hall & Hlt)].
      * left. split; [done|]. by constructor.
      * right. exists (S t), v. repeat split.
        -- lia.
        -- done.
        -- done.
        -- constructor; [|done]. by apply ltb_leb, (ltb_leb_trans v mp x).
        -- intros [|t'] y Ht' Hy; simpl in Hy.
           ++ injection Hy as <-. by eapply ltb_leb_trans.
           ++ apply (Hlt t'); [lia|done].
    + rewrite Hx. pose proof (leb_false_ltb mp x Hmp Hx Hmx) as Hlt'.
      destruct (IH x i (S i) Hx) as [[Hj Hall]|(t & v & Hj & Ht & Hv & Hall & Hlt)].
      * right. exists 0, x. repeat split.
        -- lia.
        -- done.
        -- constructor; [by apply leb_refl|done].
        -- intros t' y Ht'. lia.
      * right. exists (S t), v. repeat split.
        -- lia.
        -- done.
        -- apply (ltb_leb_trans v x mp); [done|by apply ltb_leb].
        -- constructor; [by apply ltb_leb|done].
        -- intros [|t'] y Ht' Hy; simpl in Hy.
           ++ by injection Hy as <-.
           ++ apply (Hlt t'); [lia|done].
Qed.

Lemma np_argmin_least (l : list float) :
  l <> [] -> Forall (fun x => fisnan x = false) l ->
  exists j v, np_argmin l = Ok j /\ l !! j = Some v /\
    (forall t y, l !! t = Some y -> (v <=? y)%float = true) /\
    (forall t y, t < j -> l !! t = Some y -> (v <? y)%float = true).
Proof.
  destruct l as [|x l]; [done|]. intros _ [Hx Hl]%Forall_cons. simpl. rewrite Hx.
  destruct (argmin_scan_spec l x 0 1 Hx Hl) as [[Hj Hall]|(t & v & Hj & Ht & Hv & Hall & Hlt)].
  - exists 0, x. rewrite Hj. repeat split.
    + intros [|t] y Hy; simpl in Hy.
      * injection Hy as <-. by apply leb_refl.
      * rewrite Forall_forall in Hall. apply Hall.
        by eapply list_elem_of_lookup_2.
    + intros t y Ht. lia.
  - exists (S t), v. rewrite Hj. repeat split.
    + done.
    + intros [|t'] y Hy; simpl in Hy.
      * injection Hy as <-. by apply ltb_leb.
      * rewrite Forall_forall in Hall. apply Hall.
        by eapply list_elem_of_lookup_2.
    + intros [|t'] y Ht' Hy; simpl in Hy.
      * by injection Hy as <-.
      * apply (Hlt t'); [lia|done].
Qed.

(** On an array that holds a [nan], [np.argmin] returns the index of
    the first one. *)
Lemma argmin_scan_first_nan (l : list float) (mp : float) (best i t : nat) :
  l !! t = Some nan ->
  (forall t' y, t' < t -> l !! t' = Some y -> fisnan y = false) ->
  argmin_scan mp best i l = i + t.
Proof.
  revert mp best i t. induction l as [|x l IH]; intros mp best i t Ht Hbefore; [done|].
  destruct t as [|t]; simpl in *.
  - injection Ht as ->. rewrite leb_nan_r. simpl. lia.
  - assert (fisnan x = false) as Hx by (apply (Hbefore 0); [lia|done]).
    rewrite Hx.
    destruct (mp <=? x)%float; rewrite (IH _ _ _ t); try done; try lia.
    all: intros t' y Ht' Hy; apply (Hbefore (S t')); [lia|done].
Qed.

Lemma np_argmin_first_nan (l : list float) (t : nat) :
  l !! t = Some nan ->
  (forall t' y, t' < t -> l !! t' = Some y -> fisnan y = false) ->
  np_argmin l = Ok t.
Proof.
  destruct l as [|x l]; [done|]. intros Ht Hbefore. simpl.
  destruct t as [|t]; simpl in Ht.
  - by injection Ht as ->.
  - rewrite (Hbefore 0 x) by (done || lia). f_equal.
    rewrite (argmin_scan_first_nan l x 0 1 t); [done|done|].
    intros t' y Ht' Hy. apply (Hbefore (S t')); [lia|done].
Qed.

(** ** [assign] *)

(** The four outcomes of [assign] on two arrays. *)
Lemma assign_cases (X C : mat) :
  wf_mat X -> wf_mat C ->
  (width X <> width C /\ assign X C = Err WidthMismatch) \/
  (width X = width C /\ shape0 X < shape0 C /\ assign X C = Err MoreCentersThanPoints) \/
  (width X = width C /\ shape0 C = 0 /\ 1 <= shape0 X /\ assign X C = Err EmptyReduction) \/
  (width X = width C /\ shape0 C <= shape0 X /\ (1 <= shape0 C \/ shape0 X = 0) /\
   exists L, assign X C = Ok L /\ length L = shape0 X /\
             Forall (fun z => (0 <= z < Z.of_nat (shape0 C))%Z) L).
Proof.
  intros HX HC. unfold assign.
  destruct (decide (width X <> width C)) as [Hw|Hw]; [by left|].
  apply dec_stable in Hw. right.
  destruct (decide (shape0 X < shape0 C)) as [Hlt|Hge]; [by left|].
  right. rewrite measure_dist_same_width by (done || lia). simpl.
  rewrite traverse_fmap.
  destruct (decide (shape0 C = 0)) as [Hk0|Hk].
  - unfold shape0 in Hk0. apply nil_length_inv in Hk0. rewrite Hk0. simpl.
    destruct (rows X) as [|pt rs] eqn:Hrows.
    + right. unfold shape0. rewrite Hrows, Hk0. simpl.
      repeat split; [done|lia|by right|]. exists []. by repeat split.
    + left. unfold shape0. rewrite Hrows, Hk0. simpl. repeat split; [done|lia].
  - right. split; [done|]. split; [lia|]. split; [left; lia|].
    destruct (traverse_lookup_spec
      (fun pt => np_argmin (map (dist_value pt) (rows C)) ≫= fun j => Ok (Z.of_nat j))
      (fun _ z => (0 <= z < Z.of_nat (shape0 C))%Z) (rows X)) as (L & HL & Hlen & Hrange).
    { intros i pt _.
      destruct (np_argmin_bound (map (dist_value pt) (rows C))) as (j & -> & Hj).
      - unfold shape0 in Hk. by destruct (rows C).
      - simpl. eexists. split; [done|]. rewrite length_map in Hj. unfold shape0. lia. }
    exists L. split; [done|]. split; [done|].
    apply Forall_lookup. intros i z Hz. by apply (Hrange i).
Qed.

(** X4. The outcome of [assign] on an n x d array and a k x d' array,
    whatever their entries: the widths are compared first, then the
    numbers of rows; with no center at all and at least one point
    numpy's [argmin] raises; in every other case [assign] returns [n]
    labels, each in [[0, k)]. *)
Theorem assign_outcome (X C : mat) :
  wf_mat X -> wf_mat C ->
  (assign X C = Err WidthMismatch <-> width X <> width C) /\
  (assign X C = Err MoreCentersThanPoints <->
     width X = width C /\ shape0 X < shape0 C) /\
  (assign X C = Err EmptyReduction <->
     width X = width C /\ shape0 C = 0 /\ 1 <= shape0 X) /\
  ((exists L, assign X C = Ok L) <->
     width X = width C /\ shape0 C <= shape0 X /\ (1 <= shape0 C \/ shape0 X = 0)) /\
  (forall L, assign X C = Ok L ->
     length L = shape0 X /\ Forall (fun z => (0 <= z < Z.of_nat (shape0 C))%Z) L).
Proof.
  intros HX HC.
  destruct (assign_cases X C HX HC)
    as [[Hw He]|[(Hw & Hlt & He)|[(Hw & Hk & Hn & He)|(Hw & Hle & Hk & L & HL & Hlen & Hrange)]]].
  - rewrite He. split_and!; try outcome. done.
  - rewrite He. split_and!; try outcome. done.
  - rewrite He. split_and!; try outcome. done.
  - rewrite HL. split_and!; try outcome. by intros L' [= <-].
Qed.

Lemma assign_outcome_witness :
  (assign (Mat 1 [[nan]; [0%float]]) (Mat 1 [[1%float]]) = Err WidthMismatch <-> 1 <> 1) /\
  (forall L, assign (Mat 1 [[nan]; [0%float]]) (Mat 1 [[1%float]]) = Ok L ->
     length L = 2 /\ Forall (fun z => (0 <= z < 1)%Z) L).
Proof.
  destruct (assign_outcome (Mat 1 [[nan]; [0%float]]) (Mat 1 [[1%float]]))
    as (Hwidth & _ & _ & _ & Hrange).
  - repeat constructor.
  - repeat constructor.
  - split; [exact Hwidth|exact Hrange].
Defined.

(** X5. A point with a missing coordinate is at distance [nan] of
    every center, and numpy's [argmin] returns the index of the first
    [nan]: [assign] gives such a point the label 0 without raising. *)
Theorem assign_nan_point_label_zero (X C : mat) (i : nat) (pt : list float64) :
  wf_mat X -> wf_mat C -> width X = width C -> 1 <= shape0 C <= shape0 X ->
  rows X !! i = Some pt -> existsb fisnan pt = true ->
  exists L, assign X C = Ok L /\ L !! i = Some 0%Z.
Proof.
  intros HX HC Hw [Hk Hkn] Hpt Hnan.
  destruct (assign_cases X C HX HC)
    as [[? _]|[(_ & ? & _)|[(_ & ? & _)|(_ & _ & _ & L & HL & _)]]]; try lia; try done.
  exists L. split; [done|].
  unfold assign in HL.
  rewrite decide_False in HL by (intros ?; done).
  rewrite decide_False in HL by lia.
  rewrite measure_dist_same_width in HL by (done || lia). simpl in HL.
  rewrite traverse_fmap in HL.
  destruct (traverse_ok_lookup _ _ _ i pt HL Hpt) as (z & Hz & Hlab).
  rewrite Hz. f_equal.
  unfold shape0, wf_mat in *.
  destruct (rows C) as [|c cs]; [simpl in *; lia|].
  simpl in Hlab. rewrite dist_value_nan in Hlab; [simpl in Hlab; by injection Hlab as <-| |done].
  rewrite Forall_forall in HX. apply Forall_cons in HC as [Hc _].
  rewrite (HX pt), Hc; [done|]. by eapply list_elem_of_lookup_2.
Qed.

Lemma assign_nan_point_label_zero_witness :
  exists L, assign (Mat 1 [[5%float]; [nan]]) (Mat 1 [[0%float]; [5%float]]) = Ok L /\
            L !! 1 = Some 0%Z.
Proof.
  apply (assign_nan_point_label_zero (Mat 1 [[5%float]; [nan]]) (Mat 1 [[0%float]; [5%float]])
           1 [nan]).
  - repeat constructor.
  - repeat constructor.
  - reflexivity.
  - unfold shape0. simpl. lia.
  - reflexivity.
  - reflexivity.
Defined.

(** The labels of [assign], row by row. *)
Lemma assign_rows (X C : mat) (L : list Z) :
  wf_mat X -> wf_mat C -> width X = width C -> shape0 C <= shape0 X ->
  assign X C = Ok L ->
  length L = shape0 X /\
  forall i p, rows X !! i = Some p ->
    exists j, L !! i = Some (Z.of_nat j) /\ np_argmin (map (dist_value p) (rows C)) = Ok j.
Proof.
  intros HX HC Hw Hle HL. unfold assign in HL.
  rewrite decide_False in HL by (intros ?; done).
  rewrite decide_False in HL by lia.
  rewrite measure_dist_same_width in HL by (done || lia). simpl in HL.
  rewrite traverse_fmap in HL. split.
  - apply traverse_ok_length in HL. by rewrite HL.
  - intros i p Hp.
    destruct (traverse_ok_lookup _ _ _ i p HL Hp) as (z & Hz & Hlab).
    simpl in Hlab. destruct (np_argmin _) as [j|e]; simpl in Hlab; [|done].
    injection Hlab as <-. by exists j.
Qed.

(** The claim C5 fails when rounding hides a difference: the squared
    distance of the origin to [(1, 2^-30)] is [1 + 2^-60], which
    binary64 rounds to 1, the squared distance to [(1, 0)].  The two
    computed distances are equal and [np.argmin] takes the first
    center, although the second is strictly closer. *)
Lemma assign_rounds_distances :
  assign (Mat 2 [[0; 0]; [0; 0]]%float) (Mat 2 [[1; 0x1p-30]; [1; 0]]%float) = Ok [0; 0]%Z /\
  (euclid (map B2R [0; 0]%float) (map B2R [1; 0]%float)
   < euclid (map B2R [0; 0]%float) (map B2R [1; 0x1p-30]%float))%R.
Proof.
  split; [by vm_compute|].
  real_values. unfold euclid, Rsum. simpl. apply sqrt_lt_1_alt. lra.
Qed.



(** ** Which exceptions each routine can raise *)

Lemma dist_entry_err pt c e : dist_entry pt c = Err e -> e = BroadcastError.
Proof.
  unfold dist_entry, broadcast_sub. destruct c as [c|r]; simpl; [done|].
  destruct (decide _); simpl; [done|].
  destruct r as [|? [|? ?]], pt as [|? [|? ?]]; simpl; congruence.
Qed.

Lemma measure_dist_err X c e :
  measure_dist X c = Err e -> e ∈ measure_dist_raises.
Proof.
  unfold measure_dist, measure_dist_raises. destruct (decide _).
  - intros [= <-]. in_list.
  - destruct (traverse _ (rows X)) as [D|e'] eqn:HD; simpl; [done|].
    intros [= ->]. apply traverse_err in HD as (pt & _ & Hpt).
    apply traverse_err in Hpt as (cl & _ & Hcl).
    apply dist_entry_err in Hcl as ->. in_list.
Qed.

Lemma np_argmin_err l e : np_argmin l = Err e -> e = EmptyReduction.
Proof. destruct l as [|x l]; simpl; [congruence|]. by destruct (fisnan x). Qed.

Lemma np_argmax_err l e : np_argmax l = Err e -> e = EmptyReduction.
Proof. destruct l as [|x l]; simpl; [congruence|]. by destruct (fisnan x). Qed.

Lemma np_min_err l e : np_min l = Err e -> e = EmptyReduction.
Proof. destruct l as [|x l]; simpl; congruence. Qed.

Lemma row_at_err X i e : row_at X i = Err e -> e = IndexOutOfBounds.
Proof. unfold row_at. destruct (rows X !! i); congruence. Qed.

Lemma assign_err X C e : assign X C = Err e -> e ∈ assign_raises.
Proof.
  unfold assign, assign_raises.
  destruct (decide _); [intros [= <-]; in_list|].
  destruct (decide _); [intros [= <-]; in_list|].
  destruct (measure_dist X (Arr2 C)) as [D|e'] eqn:HD; simpl.
  - intros (drow & _ & Hrow)%traverse_err.
    destruct (np_argmin drow) as [j|e'] eqn:Hj; simpl in Hrow; [done|].
    injection Hrow as ->. apply np_argmin_err in Hj as ->. in_list.
  - intros [= ->]. apply measure_dist_err in HD.
    unfold measure_dist_raises in HD. in_list.
Qed.

Lemma fallback_row_err X C kk e :
  fallback_row X C kk = Err e -> e ∈ calc_centers_raises.
Proof.
  unfold fallback_row, calc_centers_raises.
  destruct (row_at C kk) as [c|e'] eqn:Hc; simpl.
  2:{ intros [= ->]. apply row_at_err in Hc as ->. in_list. }
  destruct (measure_dist X (Arr1 c)) as [D|e'] eqn:HD; simpl.
  2:{ intros [= ->]. apply measure_dist_err in HD.
      unfold measure_dist_raises in HD. in_list. }
  destruct (np_argmax _) as [j|e'] eqn:Hj; simpl.
  2:{ intros [= ->]. apply np_argmax_err in Hj as ->. in_list. }
  intros ->%row_at_err. in_list.
Qed.

Lemma calc_centers_err X C L e :
  calc_centers X C L = Err e -> e ∈ calc_centers_raises.
Proof.
  unfold calc_centers.
  destruct (decide _); [intros [= <-]; unfold calc_centers_raises; in_list|].
  destruct (decide _); [intros [= <-]; unfold calc_centers_raises; in_list|].
  destruct (traverse _ _) as [D|e'] eqn:HD; simpl; [done|].
  intros [= ->]. apply traverse_err in HD as (kk & _ & Hkk).
  unfold new_center in Hkk. destruct (negb _); [done|].
  by eapply fallback_row_err.
Qed.

Lemma np_random_choice_err g c p e :
  np_random_choice g c p = Err e -> e ∈ EmptyPopulation :: choice_raises.
Proof.
  unfold np_random_choice, choice_raises.
  destruct (decide _); [intros [= <-]; in_list|].
  repeat (destruct (_ : bool); [intros [= <-]; in_list|]). done.
Qed.

Lemma np_random_choice_ok g c p i :
  np_random_choice g c p = Ok i -> i = choice_draw g c p.
Proof.
  unfold np_random_choice. destruct (decide _); [done|].
  repeat (destruct (_ : bool); [done|]). congruence.
Qed.

Lemma kpp_weights_err X C kk ind e :
  kpp_weights X C kk ind = Err e -> e ∈ seeding_raises.
Proof.
  unfold kpp_weights, seeding_raises.
  destruct (measure_dist _ _) as [D|e'] eqn:HD; simpl.
  2:{ intros [= ->]. apply measure_dist_err in HD.
      unfold measure_dist_raises in HD. in_list. }
  destruct (traverse np_min _) as [w|e'] eqn:Hw; simpl; [done|].
  intros [= ->]. apply traverse_err in Hw as (r & _ & ->%np_min_err).
  in_list.
Qed.

Lemma kpp_step_err g X st kk e :
  kpp_step g X st kk = Err e -> e ∈ seeding_raises.
Proof.
  destruct st as [C ind]. unfold kpp_step.
  destruct (kpp_weights X C kk ind) as [w|e'] eqn:Hw; simpl.
  2:{ intros [= ->]. by eapply kpp_weights_err. }
  destruct (np_random_choice _ _ _) as [i|e'] eqn:Hi; simpl.
  2:{ intros [= ->]. apply np_random_choice_err in Hi.
      unfold seeding_raises, choice_raises in *. in_list. }
  destruct (row_at X i) as [r|e'] eqn:Hr; simpl; [done|].
  intros [= ->]. apply row_at_err in Hr as ->. unfold seeding_raises. in_list.
Qed.

(** [init_centers] raises one of its two own exceptions exactly on the
    values of [k] they name; past the two guards only numpy raises. *)
Lemma init_state_err g X (k : pyint) e :
  init_state g X k = Err e ->
  (e = TooManyClusters /\ (Z.of_nat (shape0 X) < int_value k)%Z) \/
  (e = NonPositiveClusters /\ (int_value k <= 0)%Z) \/
  ((0 < int_value k <= Z.of_nat (shape0 X))%Z /\ e ∈ seeding_raises).
Proof.
  unfold init_state.
  destruct (decide _); [intros [= <-]; by left|].
  destruct (decide _); [intros [= <-]; right; by left|].
  intros He. right. right. split; [lia|].
  destruct k as [z|b]; [|injection He as <-; unfold seeding_raises; in_list].
  unfold random_randint in He. destruct (decide _); simpl in He.
  { injection He as <-. unfold seeding_raises. in_list. }
  destruct (row_at X _) as [r0|e'] eqn:Hr; simpl in He.
  2:{ injection He as ->. apply row_at_err in Hr as ->.
      unfold seeding_raises. in_list. }
  apply for_each_err in He as (s' & kk & _ & Hstep).
  by eapply kpp_step_err.
Qed.

Lemma init_centers_err g X (k : pyint) e :
  init_centers g X k = Err e -> init_state g X k = Err e.
Proof.
  unfold init_centers. by destruct (init_state g X k); simpl; [|intros [= ->]].
Qed.

(** ** Missing values *)

Lemma np_sum2_nan (X : mat) : has_nan X = true -> np_sum2 X = nan.
Proof.
  unfold has_nan, np_sum2. intros H. apply np_sum_nan.
  induction (rows X) as [|r l IH]; simpl in *; [done|].
  rewrite existsb_app. destruct (existsb fisnan r); simpl in *; [done|]. by apply IH.
Qed.

Lemma fit_run_nan fuel g X k :
  has_nan X = true -> fit_run fuel g X k = Some (Err NonNumericData).
Proof. intros H. unfold fit_run. by rewrite (np_sum2_nan X H). Qed.

(** The claim C6 fails on [assign]: on a point array holding a [nan] it
    returns labels. *)
Lemma assign_accepts_nan :
  has_nan (Mat 1 [[nan]]) = true /\
  assign (Mat 1 [[nan]]) (Mat 1 [[0%float]]) = Ok [0%Z].
Proof. split; reflexivity. Qed.

(** C6, amended.  [fit] and [fit_assign] reject a point array that
    holds a [nan] with the exception for non-numeric data, whatever
    [k] is and before they seed; [init_centers], [assign],
    [measure_dist] and [calc_centers] never raise that exception. *)
Theorem nan_rejected_by_fit_only (fuel : nat) (g : rng) (X : mat) (k : pyobj)
    (z : pyint) (C : mat) (c : ndarray) (L : list Z) :
  has_nan X = true ->
  fit fuel g X k = Some (Err NonNumericData) /\
  fit_assign fuel g X k = Some (Err NonNumericData) /\
  kind_of NonNumericData = NonNumericInputError /\
  init_centers g X z <> Err NonNumericData /\
  assign X C <> Err NonNumericData /\
  measure_dist X c <> Err NonNumericData /\
  calc_centers X C L <> Err NonNumericData.
Proof.
  intros Hnan. repeat split.
  - unfold fit. by rewrite fit_run_nan.
  - unfold fit_assign. by rewrite (np_sum2_nan X Hnan).
  - intros He%init_centers_err%init_state_err.
    destruct He as [[? _]|[[? _]|[_ He]]]; try done.
    unfold seeding_raises in He. in_list.
  - intros He%assign_err. unfold assign_raises in He. in_list.
  - intros He%measure_dist_err. unfold measure_dist_raises in He. in_list.
  - intros He%calc_centers_err. unfold calc_centers_raises in He. in_list.
Qed.

Lemma nan_rejected_by_fit_only_witness :
  fit 19 (Rng 0 (fun _ _ => 0)) (Mat 1 [[nan]]) (PyInt 1%Z) = Some (Err NonNumericData) /\
  fit_assign 19 (Rng 0 (fun _ _ => 0)) (Mat 1 [[nan]]) (PyInt 1%Z) = Some (Err NonNumericData) /\
  kind_of NonNumericData = NonNumericInputError /\
  init_centers (Rng 0 (fun _ _ => 0)) (Mat 1 [[nan]]) 1%Z <> Err NonNumericData /\
  assign (Mat 1 [[nan]]) (Mat 1 [[0%float]]) <> Err NonNumericData /\
  measure_dist (Mat 1 [[nan]]) (Arr1 [0%float]) <> Err NonNumericData /\
  calc_centers (Mat 1 [[nan]]) (Mat 1 [[0%float]]) [0%Z] <> Err NonNumericData.
Proof.
  apply (nan_rejected_by_fit_only 19 (Rng 0 (fun _ _ => 0)) (Mat 1 [[nan]]) (PyInt 1%Z)
           1%Z (Mat 1 [[0%float]]) (Arr1 [0%float]) [0%Z]).
  reflexivity.
Defined.

(** ** The guards on [k] *)

(** C8. [init_centers] raises an invalid-parameter exception when
    [k <= 0] and when [k > n]; on a point array without missing value
    [fit] raises one when [k] is not an integer and when [k = 0]; and
    when [0 < k <= n] no exception of [init_centers] is an
    invalid-parameter one.  ([k] ranges over the integers and the two
    booleans, which Python counts among them.) *)
Theorem k_guards (fuel : nat) (g : rng) (X : mat) :
  (forall k : pyint, (int_value k <= 0)%Z ->
     exists e, init_centers g X k = Err e /\ kind_of e = InvalidParameterError) /\
  (forall k : pyint, (Z.of_nat (shape0 X) < int_value k)%Z ->
     exists e, init_centers g X k = Err e /\ kind_of e = InvalidParameterError) /\
  (fisnan (np_sum2 X) = false ->
     (forall k, isinstance_int k = false ->
        exists e, fit fuel g X k = Some (Err e) /\ kind_of e = InvalidParameterError) /\
     (exists e, fit fuel g X (PyInt 0%Z) = Some (Err e) /\
                kind_of e = InvalidParameterError)) /\
  (forall (k : pyint) e, (0 < int_value k <= Z.of_nat (shape0 X))%Z ->
     init_centers g X k = Err e -> kind_of e <> InvalidParameterError).
Proof.
  split; [|split; [|split]].
  - intros k Hk.
    destruct (decide (Z.of_nat (shape0 X) < int_value k)%Z) as [Hbig|Hbig].
    + exists TooManyClusters. split; [|done].
      unfold init_centers, init_state. by rewrite decide_True.
    + exists NonPositiveClusters. split; [|done].
      unfold init_centers, init_state.
      rewrite decide_False by done. by rewrite decide_True by lia.
  - intros k Hk. exists TooManyClusters. split; [|done].
    unfold init_centers, init_state. by rewrite decide_True by lia.
  - intros Hnan. split.
    + intros k Hk. exists KNotInteger. split; [|done].
      unfold fit, fit_run. rewrite Hnan. by destruct k.
    + exists NonPositiveClusters. split; [|done].
      unfold fit, fit_run, fit_first, init_centers, init_state. rewrite Hnan.
      cbn [int_value]. rewrite decide_False by lia. by rewrite decide_True by lia.
  - intros k e Hk He%init_centers_err%init_state_err.
    destruct He as [[_ ?]|[[_ ?]|[_ He]]]; try lia.
    unfold seeding_raises in He.
    repeat (apply elem_of_cons in He as [->|He]; [done|]).
    by apply elem_of_nil in He.
Qed.

Lemma k_guards_witness :
  (exists e, init_centers (Rng 0 (fun _ _ => 0)) (Mat 1 [[0]; [1]]%float) 0%Z = Err e /\
             kind_of e = InvalidParameterError) /\
  (exists e, init_centers (Rng 0 (fun _ _ => 0)) (Mat 1 [[0]; [1]]%float) 3%Z = Err e /\
             kind_of e = InvalidParameterError) /\
  (exists e, fit 19 (Rng 0 (fun _ _ => 0)) (Mat 1 [[0]; [1]]%float) (PyFloat 2%float)
             = Some (Err e) /\
             kind_of e = InvalidParameterError) /\
  (exists e, fit 19 (Rng 0 (fun _ _ => 0)) (Mat 1 [[0]; [1]]%float) (PyInt 0%Z) = Some (Err e) /\
             kind_of e = InvalidParameterError) /\
  (forall e, init_centers (Rng 0 (fun _ _ => 0)) (Mat 1 [[0]; [1]]%float) 2%Z = Err e ->
             kind_of e <> InvalidParameterError).
Proof.
  destruct (k_guards 19 (Rng 0 (fun _ _ => 0)) (Mat 1 [[0]; [1]]%float))
    as (Hneg & Hbig & Hfit & Hin).
  destruct Hfit as [Hint Hzero]; [reflexivity|].
  split; [apply Hneg; simpl; lia|].
  split; [apply Hbig; unfold shape0; simpl; lia|].
  split; [by apply Hint|].
  split; [exact Hzero|].
  intros e. apply Hin. unfold shape0. simpl. lia.
Defined.

(** ** [calc_centers] *)

Lemma length_concat_uniform {A : Type} (m : nat) (ls : list (list A)) :
  Forall (fun l => length l = m) ls -> length (concat ls) = length ls * m.
Proof.
  induction 1 as [|l ls Hl _ IH]; simpl; [done|].
  rewrite length_app, IH, Hl. lia.
Qed.

Lemma measure_dist_arr1 (X : mat) (c : list float64) :
  length c <= shape0 X ->
  measure_dist X (Arr1 c)
  = Ok (Mat (length c) (map (fun pt => map (dist_to_scalar pt) c) (rows X))).
Proof.
  intros Hle. unfold measure_dist. cbn [nd_shape0 nd_cells].
  rewrite decide_False by lia.
  rewrite (traverse_ok_map _ (fun pt => map (dist_to_scalar pt) c)); [done|].
  intros pt _. rewrite traverse_fmap. by apply traverse_ok_map.
Qed.

(** With at least as many points as dimensions the fallback returns a
    row of [X]. *)
Lemma fallback_row_total (X C : mat) (kk : nat) :
  wf_mat C -> width X = width C -> kk < shape0 C ->
  1 <= width X <= shape0 X ->
  exists r, fallback_row X C kk = Ok r /\ r ∈ rows X.
Proof.
  intros HC Hw Hkk [Hd Hdn]. unfold fallback_row, row_at.
  destruct (lookup_lt_is_Some_2 (rows C) kk Hkk) as [c Hc]. rewrite Hc. simpl.
  assert (length c = width X) as Hlen.
  { rewrite Hw. unfold wf_mat in HC. rewrite Forall_forall in HC.
    apply HC. by eapply list_elem_of_lookup_2. }
  rewrite measure_dist_arr1 by lia. simpl.
  set (D := map _ (rows X)).
  assert (length (concat D) = shape0 X * width X) as HlenD.
  { rewrite (length_concat_uniform (width X)).
    - unfold D. by rewrite length_map.
    - apply Forall_forall. intros r (pt & -> & _)%list_elem_of_fmap.
      by rewrite length_map. }
  destruct (np_argmax_bound (concat D)) as (j & -> & Hj).
  { intros Hnil. rewrite Hnil in HlenD. simpl in HlenD. nia. }
  simpl. rewrite HlenD in Hj.
  assert (j / width X < shape0 X) as Hrow.
  { apply Nat.Div0.div_lt_upper_bound. lia. }
  destruct (lookup_lt_is_Some_2 (rows X) _ Hrow) as [r Hr]. rewrite Hr.
  exists r. split; [done|]. by eapply list_elem_of_lookup_2.
Qed.

Lemma members_none (X : mat) (L : list Z) (kk : nat) :
  (forall z, z ∈ L -> z <> Z.of_nat kk) -> members X L kk = [].
Proof.
  intros Hno. unfold members.
  assert (filter (fun p : list float64 * Z => p.2 = Z.of_nat kk) (zip (rows X) L) = []) as ->;
    [|done].
  assert (Forall (fun p : list float64 * Z => p.2 ∈ L) (zip (rows X) L)) as Hall.
  { apply Forall_forall. intros [r z] Hin. simpl. by eapply elem_of_zip_r. }
  induction Hall as [|[r' z'] ps' Hz _ IH]; [done|].
  rewrite filter_cons. simpl in *. rewrite decide_False by by apply Hno. done.
Qed.

Lemma np_mean_nil : np_mean [] = nan.
Proof. reflexivity. Qed.

Lemma current_center_none (X : mat) (L : list Z) (kk : nat) :
  1 <= width X -> (forall z, z ∈ L -> z <> Z.of_nat kk) ->
  fisnan (np_sum (current_center X L kk)) = true.
Proof.
  intros Hd Hno. unfold current_center. rewrite (members_none X L kk Hno).
  destruct (width X) as [|d]; [lia|].
  rewrite np_sum_nan; [done|]. cbn [seq map column]. by rewrite np_mean_nil.
Qed.

Lemma members_same_clusters (k : nat) (X : mat) (L L' : list Z) (kk : nat) :
  same_clusters k L L' -> kk < k -> members X L kk = members X L' kk.
Proof.
  intros [Hlen Hsame] Hkk. unfold members.
  assert (forall i z z', L !! i = Some z -> L' !! i = Some z' ->
            (z = Z.of_nat kk <-> z' = Z.of_nat kk)) as H.
  { intros i z z' Hz Hz'. by apply (Hsame i). }
  clear Hsame. revert L L' Hlen H.
  induction (rows X) as [|r rs IH]; intros L L' Hlen H; [done|].
  destruct L as [|z L], L' as [|z' L']; simpl in *; try done.
  pose proof (H 0 z z' eq_refl eq_refl) as H0.
  assert ((filter (fun p : list float64 * Z => p.2 = Z.of_nat kk) (zip rs L)).*1
        = (filter (fun p : list float64 * Z => p.2 = Z.of_nat kk) (zip rs L')).*1) as IH'.
  { apply IH; [lia|]. intros i. apply (H (S i)). }
  rewrite !filter_cons. simpl.
  destruct (decide (z = Z.of_nat kk)) as [Hz|Hz], (decide (z' = Z.of_nat kk)) as [Hz'|Hz'];
    simpl; try tauto; first [exact IH' | by f_equal].
Qed.

Lemma members_in_range (k : nat) (X : mat) (L : list Z) (kk : nat) :
  kk < k ->
  members X L kk
  = members (Mat (width X) (in_range_points k X L).*1) (in_range_points k X L).*2 kk.
Proof.
  intros Hkk. unfold members, in_range_points. cbn [rows].
  rewrite zip_fst_snd, list_filter_filter. f_equal.
  apply list_filter_iff. intros [r z]. simpl. lia.
Qed.

Lemma np_sum_nil_not_nan (X : mat) (L : list Z) (kk : nat) :
  fisnan (np_sum (current_center X L kk)) = true -> 1 <= width X.
Proof.
  unfold current_center. destruct (width X); [done|lia].
Qed.

Lemma calc_centers_err_fallback (X C : mat) (L : list Z) e :
  width X = width C -> shape0 X = length L ->
  calc_centers X C L = Err e ->
  exists kk, kk < shape0 C /\
    fisnan (np_sum (current_center X L kk)) = true /\
    fallback_row X C kk = Err e.
Proof.
  intros Hw Hn. unfold calc_centers.
  rewrite decide_False by (intros ?; done). rewrite decide_False by (intros ?; done).
  destruct (traverse _ _) as [D|e'] eqn:HD; simpl; [done|].
  intros [= ->]. apply traverse_err in HD as (kk & Hkk & Hrow).
  exists kk. apply elem_of_seq in Hkk. split; [lia|].
  unfold new_center in Hrow.
  destruct (fisnan (np_sum (current_center X L kk))); simpl in Hrow; done.
Qed.

Lemma new_center_length (X C : mat) (L : list Z) (kk : nat) (r : list float64) :
  wf_mat X -> new_center X C L kk = Ok r -> length r = width X.
Proof.
  intros HX. unfold new_center.
  destruct (negb _).
  - intros [= <-]. unfold current_center. by rewrite length_map, length_seq.
  - unfold fallback_row.
    destruct (row_at C kk) as [c|e]; simpl; [|done].
    destruct (measure_dist X (Arr1 c)) as [D|e]; simpl; [|done].
    destruct (np_argmax _) as [j|e]; simpl; [|done].
    unfold row_at. destruct (rows X !! _) as [r'|] eqn:Hr; [|done].
    intros [= <-]. unfold wf_mat in HX. rewrite Forall_forall in HX.
    apply HX. by eapply list_elem_of_lookup_2.
Qed.

Lemma calc_centers_ok_shape (X C M : mat) (L : list Z) :
  calc_centers X C L = Ok M ->
  shape0 X = length L /\ width X = width C /\
  shape0 M = shape0 C /\ width M = width X /\ (wf_mat X -> wf_mat M).
Proof.
  unfold calc_centers.
  destruct (decide (shape0 X <> length L)) as [|Hn]; [done|]. apply dec_stable in Hn.
  destruct (decide (width X <> width C)) as [|Hw]; [done|]. apply dec_stable in Hw.
  destruct (traverse _ _) as [D|e] eqn:HD; simpl; [|done].
  intros [= <-]. repeat split; try done.
  - unfold shape0 at 1. simpl. apply traverse_ok_length in HD.
    by rewrite HD, length_seq.
  - intros HX. unfold wf_mat. simpl. apply Forall_lookup. intros i r Hr.
    assert (i < length (seq 0 (shape0 C))) as Hi.
    { apply traverse_ok_length in HD. rewrite <- HD. by eapply lookup_lt_Some. }
    destruct (lookup_lt_is_Some_2 _ _ Hi) as [kk Hkk].
    destruct (traverse_ok_lookup _ _ _ i kk HD Hkk) as (r' & Hr' & Hnew).
    rewrite Hr in Hr'. injection Hr' as <-.
    by eapply new_center_length.
Qed.

(** With at least as many points as dimensions [calc_centers] cannot
    raise. *)
Lemma calc_centers_total (X C : mat) (L : list Z) :
  wf_mat C -> width X = width C -> shape0 X = length L -> width X <= shape0 X ->
  exists M, calc_centers X C L = Ok M.
Proof.
  intros HC Hw Hn Hdn. destruct (calc_centers X C L) as [M|e] eqn:Hcalc; [by eexists|].
  apply calc_centers_err_fallback in Hcalc as (kk & Hkk & Hnan & Hfb); try done.
  apply np_sum_nil_not_nan in Hnan.
  destruct (fallback_row_total X C kk) as (r & Hr & _); try done. congruence.
Qed.

(** The outcome of [calc_centers] past its two tests, row by row. *)
Lemma calc_centers_rows (X C : mat) (L : list Z) :
  width X = width C -> shape0 X = length L ->
  (forall M, calc_centers X C L = Ok M <->
     width M = width X /\ length (rows M) = shape0 C /\
     forall kk, kk < shape0 C ->
       exists r, rows M !! kk = Some r /\ new_center X C L kk = Ok r) /\
  (forall e, calc_centers X C L = Err e ->
     exists kk, kk < shape0 C /\ new_center X C L kk = Err e) /\
  (forall kk e, kk < shape0 C -> new_center X C L kk = Err e ->
     exists e', calc_centers X C L = Err e').
Proof.
  intros Hw Hn. unfold calc_centers.
  rewrite decide_False by (intros ?; done). rewrite decide_False by (intros ?; done).
  destruct (traverse _ _) as [D|e'] eqn:HD; simpl.
  - pose proof (traverse_ok_length _ _ _ HD) as Hlen. rewrite length_seq in Hlen.
    split; [|split; [done|]].
    + intros [d M]. simpl. split.
      * intros [= <- <-]. split; [done|]. split; [done|]. intros kk Hkk.
        destruct (traverse_ok_lookup _ _ _ kk kk HD) as (r & Hr & Hrow); [by apply lookup_seq_lt|].
        by exists r.
      * intros (-> & HlenM & Hrows). do 2 f_equal. apply list_eq_same_length with (shape0 C); try done.
        intros i x y Hi Hx Hy.
        destruct (traverse_ok_lookup _ _ _ i i HD) as (r & Hr & Hrow); [by apply lookup_seq_lt|].
        destruct (Hrows i Hi) as (r' & Hr' & Hrow'). congruence.
    + intros kk e Hkk Hnew.
      destruct (traverse_ok_lookup _ _ _ kk kk HD) as (r & Hr & Hrow); [by apply lookup_seq_lt|].
      congruence.
  - split; [|split].
    + intros M. split; [done|]. intros (_ & _ & Hrows).
      apply traverse_err in HD as (kk & Hkk%elem_of_seq & Hrow).
      destruct (Hrows kk) as (r & _ & Hr); [lia|]. congruence.
    + intros e [= <-]. apply traverse_err in HD as (kk & Hkk%elem_of_seq & Hrow).
      exists kk. split; [lia|done].
    + intros. by eexists.
Qed.

(** X7. The two tests of [calc_centers] are made in this order: the
    number of labels, then the widths.  Whenever [calc_centers]
    returns, the result has as many rows as [centers] and the width of
    [X], and all its rows have this width when those of [X] do. *)
Theorem calc_centers_shape (X C : mat) (L : list Z) :
  (shape0 X <> length L -> calc_centers X C L = Err LabelCountMismatch) /\
  (shape0 X = length L -> width X <> width C ->
     calc_centers X C L = Err WidthMismatch) /\
  (forall M, calc_centers X C L = Ok M ->
     shape0 X = length L /\ width X = width C /\
     shape0 M = shape0 C /\ width M = width X /\ (wf_mat X -> wf_mat M)).
Proof.
  split; [|split].
  - intros Hn. unfold calc_centers. by rewrite decide_True.
  - intros Hn Hw. unfold calc_centers.
    rewrite decide_False by (intros ?; done). by rewrite decide_True.
  - intros M. apply calc_centers_ok_shape.
Qed.

(** The claim C10 fails when there are fewer points than dimensions:
    on one point of three coordinates the label 0 gives a result, and
    the out-of-range label 7 makes [calc_centers] raise. *)
Lemma calc_centers_raises_on_label :
  calc_centers (Mat 3 [[0; 0; 0]]%float) (Mat 3 [[0; 0; 0]]%float) [0%Z]
  = Ok (Mat 3 [[0; 0; 0]]%float) /\
  calc_centers (Mat 3 [[0; 0; 0]]%float) (Mat 3 [[0; 0; 0]]%float) [7%Z]
  = Err MoreCentersThanPoints.
Proof. split; by vm_compute. Qed.



(** C1 fails in two ways, both through the call
    [measure_dist(X, centers[kk])] of line 198, which passes a
    one-dimensional array: its [d] coordinates are taken for [d]
    centers.  With fewer points than dimensions the guard of
    [measure_dist] raises.  Otherwise the distances are those to the
    points [(c, ..., c)] for the coordinates [c] of the old center:
    below, the cluster 0 is empty, the old center is [(0, 2)], and the
    row taken is [(0, 2)] itself, at distance 0, although [(1, 1)] is
    farther from it, for the computed distances as for the exact
    ones. *)
Theorem calc_centers_fallback_not_farthest :
  calc_centers (Mat 3 [[0; 0; 0]; [1; 1; 1]]%float)
               (Mat 3 [[0; 0; 0]; [1; 1; 1]]%float) [1; 1]%Z
  = Err MoreCentersThanPoints /\
  calc_centers (Mat 2 [[0; 2]; [1; 1]]%float)
               (Mat 2 [[0; 2]; [1; 1]]%float) [1; 1]%Z
  = Ok (Mat 2 [[0; 2]; [0.5; 1.5]]%float) /\
  (dist_value [0; 2] [0; 2] <? dist_value [1; 1] [0; 2])%float = true /\
  (euclid (map B2R [0; 2]%float) (map B2R [0; 2]%float)
   < euclid (map B2R [1; 1]%float) (map B2R [0; 2]%float))%R.
Proof.
  split; [by vm_compute|]. split; [by vm_compute|]. split; [by vm_compute|].
  real_values. unfold euclid. apply sqrt_lt_1_alt. unfold Rsum. simpl. lra.
Qed.

(** ** Seeding *)

(** Line 52-53: the rows of the selected points are set to zero. *)
Lemma lookup_zero_rows {A : Type} (v : A) (ind : list nat) (l : list A) (i : nat) :
  foldl (fun acc i => <[i := v]> acc) l ind !! i
  = if decide (i ∈ ind) then (if decide (i < length l) then Some v else None) else l !! i.
Proof.
  revert l. induction ind as [|j ind IH]; intros l.
  - destruct (decide (i ∈ [])) as [H|_]; [by apply elem_of_nil in H|done].
  - cbn [foldl]. rewrite IH, length_insert.
    destruct (decide (i ∈ ind)) as [Hin|Hin].
    + rewrite (decide_True (P := i ∈ j :: ind)) by by right. done.
    + destruct (decide (i = j)) as [->|Hne].
      * rewrite (decide_True (P := j ∈ j :: ind)) by by left.
        destruct (decide (j < length l)).
        -- by rewrite list_lookup_insert_eq.
        -- rewrite list_insert_ge by lia. apply lookup_ge_None. lia.
      * rewrite (decide_False (P := i ∈ j :: ind)) by (rewrite elem_of_cons; tauto).
        by rewrite list_lookup_insert_ne.
Qed.

Lemma replace_eq_zeros (m : nat) :
  replace_eq 0%float infinity (replicate m 0%float) = replicate m infinity.
Proof. unfold replace_eq. induction m as [|m IH]; simpl; [done|]. by rewrite IH. Qed.

Lemma np_min_all_inf (m : nat) :
  1 <= m -> np_min (replicate m infinity) = Ok infinity.
Proof.
  destruct m as [|m]; [lia|]. intros _. simpl. f_equal.
  induction m as [|m IH]; simpl; [done|]. exact IH.
Qed.

(** Lines 52-60: a point that is already selected gets weight zero. *)
Lemma kpp_weights_selected (X C : mat) (m : nat) (ind : list nat) (w : list float64) (j : nat) :
  kpp_weights X C m ind = Ok w -> 1 <= m <= length (rows C) ->
  j ∈ ind -> j < shape0 X -> w !! j = Some 0%float.
Proof.
  unfold kpp_weights. intros Hw Hm Hj Hn.
  destruct (measure_dist _ _) as [D|e] eqn:HD; simpl in Hw; [|done].
  apply measure_dist_ok_shape in HD as [HnD HwD]. simpl in HwD.
  unfold shape0 in HwD. simpl in HwD. rewrite length_take in HwD.
  replace (width D) with m in * by lia.
  destruct (traverse np_min _) as [w'|e] eqn:Hw'; simpl in Hw; [|done].
  injection Hw as <-.
  assert (map (replace_eq 0%float infinity)
            (foldl (fun acc i => <[i := replicate m 0%float]> acc)
               (map (map fsquare) (rows D)) ind) !! j = Some (replicate m infinity)) as Hrow.
  { rewrite list_lookup_fmap, lookup_zero_rows, decide_True by done.
    rewrite decide_True by (rewrite length_map; unfold shape0 in *; lia).
    simpl. by rewrite replace_eq_zeros. }
  destruct (traverse_ok_lookup _ _ _ j _ Hw' Hrow) as (b & Hb & Hmin).
  rewrite np_min_all_inf in Hmin by lia. injection Hmin as <-.
  unfold replace_eq. by rewrite list_lookup_fmap, Hb.
Qed.

Lemma drawn_step (g : rng) (X : mat) (k m : nat) (st st' : mat * list nat) :
  1 <= m < k -> drawn g X k m st -> kpp_step g X st m = Ok st' ->
  drawn g X k (S m) st'.
Proof.
  intros Hm. destruct st as [C ind].
  intros (Hw & Hlen & Hm' & Hind & Htake & Hnd). simpl in *.
  unfold kpp_step.
  destruct (kpp_weights X C m ind) as [w|e] eqn:Hweights; simpl; [|done].
  destruct (np_random_choice g m (kpp_probs w)) as [i|e] eqn:Hdraw; simpl; [|done].
  unfold row_at. destruct (rows X !! i) as [r|] eqn:Hr; simpl; [|done].
  intros [= <-]. unfold drawn. simpl.
  assert (i < shape0 X) as Hi by by eapply lookup_lt_Some.
  repeat split.
  - done.
  - by rewrite length_insert.
  - rewrite length_app. simpl. lia.
  - apply Forall_app. split; [done|]. by apply Forall_singleton.
  - rewrite (take_S_r _ _ r).
    + rewrite take_insert_ge by lia. rewrite Htake, map_app. simpl.
      by rewrite (list_lookup_total_correct _ _ _ Hr).
    + apply list_lookup_insert_eq. lia.
  - intros Hg. apply NoDup_app. split; [by apply Hnd|]. split; [|apply NoDup_singleton].
    intros x Hx ->%list_elem_of_singleton.
    pose proof (np_random_choice_ok _ _ _ _ Hdraw) as Hi'.
    rewrite Hi' in Hdraw. destruct (Hg _ _ Hdraw) as (a & Ha & Hpos).
    rewrite <- Hi' in Ha.
    unfold kpp_probs in Ha. rewrite list_lookup_fmap in Ha.
    rewrite (kpp_weights_selected X C m ind w i Hweights) in Ha; [|lia|done|done].
    simpl in Ha. injection Ha as <-. by rewrite zero_div_not_pos in Hpos.
Qed.

Lemma init_state_drawn (g : rng) (X : mat) (k : pyint) (st : mat * list nat) :
  init_state g X k = Ok st ->
  (exists z, k = Int z) /\
  (0 < int_value k <= Z.of_nat (shape0 X))%Z /\
  drawn g X (Z.to_nat (int_value k)) (Z.to_nat (int_value k)) st.
Proof.
  unfold init_state.
  destruct (decide _) as [|Hle]; [done|]. destruct (decide _) as [|Hpos]; [done|].
  destruct k as [z|b]; [|done]. cbn [int_value] in *.
  destruct (random_randint _ _ _) as [i0|e]; simpl; [|done].
  unfold row_at. destruct (rows X !! Z.to_nat i0) as [r0|] eqn:Hr0; simpl; [|done].
  intros Hloop. split; [by eexists|]. split; [lia|].
  apply (for_each_seq_preserves _ (drawn g X (Z.to_nat z))) in Hloop.
  - by replace (1 + (Z.to_nat z - 1)) with (Z.to_nat z) in Hloop by lia.
  - unfold drawn. simpl. repeat split.
    + by rewrite length_insert, length_replicate.
    + apply Forall_singleton. by eapply lookup_lt_Some.
    + rewrite (list_lookup_total_correct _ _ _ Hr0).
      destruct (Z.to_nat z) as [|k'] eqn:Hk; [lia|]. simpl. by rewrite take_0.
    + intros _. apply NoDup_singleton.
  - intros m s s' Hm. apply drawn_step. lia.
Qed.

Lemma init_centers_ok_shape (g : rng) (X : mat) (k : pyint) (C : mat) :
  init_centers g X k = Ok C ->
  (0 < int_value k <= Z.of_nat (shape0 X))%Z /\ shape0 C = Z.to_nat (int_value k) /\
  width C = width X /\ (wf_mat X -> wf_mat C).
Proof.
  unfold init_centers.
  destruct (init_state g X k) as [[C' ind]|e] eqn:Hst; simpl; [|done].
  intros [= <-].
  apply init_state_drawn in Hst as (_ & Hk & Hw & Hlen & Hm & Hind & Htake & Hnd).
  simpl in *. repeat split; try done; try lia.
  intros HX. rewrite take_ge in Htake by lia. unfold wf_mat. rewrite Htake, Hw.
  apply Forall_fmap, Forall_forall. intros i Hi. simpl.
  unfold wf_mat in HX. rewrite Forall_forall in HX. rewrite Forall_forall in Hind.
  apply HX, list_elem_of_lookup_total_2, Hind, Hi.
Qed.

(** The centers of [init_centers] are rows of [X]. *)
Lemma init_centers_indices (g : rng) (X : mat) (k : pyint) (C : mat) :
  init_centers g X k = Ok C ->
  (0 < int_value k <= Z.of_nat (shape0 X))%Z /\ width C = width X /\
  exists ind, length ind = Z.to_nat (int_value k) /\ Forall (fun i => i < shape0 X) ind /\
              rows C = map (fun i => rows X !!! i) ind /\
              (rng_ok g -> NoDup ind).
Proof.
  unfold init_centers.
  destruct (init_state g X k) as [[C' ind]|e] eqn:Hst; simpl; [|done].
  intros [= <-].
  apply init_state_drawn in Hst as (_ & Hk & Hw & Hlen & Hm & Hind & Htake & Hnd).
  simpl in *. split; [lia|]. split; [done|].
  exists ind. rewrite take_ge in Htake by lia. done.
Qed.

(** X8. Whatever the data, when [init_centers] returns it returns [k]
    centers with [0 < k <= n], and every one of them is a row of [X]:
    there is a list [ind] of [k] row indices of [X] such that the
    centers are the rows of these indices, in this order.  The indices
    are pairwise distinct when the sampler never returns an index of
    probability zero, as numpy's does. *)
Theorem init_centers_rows_of_X (g : rng) (X : mat) (k : pyint) (C : mat) :
  init_centers g X k = Ok C ->
  (0 < int_value k <= Z.of_nat (shape0 X))%Z /\ width C = width X /\
  exists ind, length ind = Z.to_nat (int_value k) /\ Forall (fun i => i < shape0 X) ind /\
              rows C = map (fun i => rows X !!! i) ind /\
              (rng_ok g -> NoDup ind).
Proof. apply init_centers_indices. Qed.

Lemma init_centers_rows_of_X_witness :
  (0 < 2 <= Z.of_nat (shape0 (Mat 1 [[0]; [1]]%float)))%Z /\
  width (Mat 1 [[0]; [1]]%float) = width (Mat 1 [[0]; [1]]%float) /\
  exists ind, length ind = Z.to_nat 2 /\
              Forall (fun i => i < shape0 (Mat 1 [[0]; [1]]%float)) ind /\
              rows (Mat 1 [[0]; [1]]%float)
              = map (fun i => rows (Mat 1 [[0]; [1]]%float) !!! i) ind /\
              (rng_ok (Rng 0 (fun _ _ => 1)) -> NoDup ind).
Proof.
  apply (init_centers_rows_of_X (Rng 0 (fun _ _ => 1)) (Mat 1 [[0]; [1]]%float) 2%Z
           (Mat 1 [[0]; [1]]%float)).
  by vm_compute.
Defined.

(** C2 fails on a point that is not selected but equals a selected
    one.  Line 55 turns every zero of [dists_sq] into [inf], also the
    zero distance of such a point to the center it equals, so that its
    weight is its least non-zero squared distance.  With the points
    0, 0, 5, 6 on a line and the points 0 and 2 selected, the point 1
    is at distance 0 of its nearest center and gets the probability
    25/26 instead of 0; a run that draws it returns the centers
    0, 5, 0. *)
Theorem kpp_probs_duplicate_point :
  kpp_weights (Mat 1 [[0]; [0]; [5]; [6]]%float) (Mat 1 [[0]; [5]; [0]]%float) 2 [0; 2]
  = Ok [0; 25; 0; 1]%float /\
  kpp_probs [0; 25; 0; 1]%float = [0; 25 / 26; 0; 1 / 26]%float /\
  (0 <? 25 / 26)%float = true /\
  dist_value [0%float] [0%float] = 0%float /\
  euclid (map B2R [0%float]) (map B2R [0%float]) = 0%R /\
  np_random_choice (Rng 0 (fun c _ => if decide (c = 1) then 2 else 1)) 2
    [0; 25 / 26; 0; 1 / 26]%float = Ok 1 /\
  init_centers (Rng 0 (fun c _ => if decide (c = 1) then 2 else 1))
               (Mat 1 [[0]; [0]; [5]; [6]]%float) 3%Z
  = Ok (Mat 1 [[0]; [5]; [0]]%float).
Proof.
  split; [by vm_compute|]. split; [by vm_compute|]. split; [by vm_compute|].
  split; [by vm_compute|]. split; [|split; by vm_compute].
  real_values. unfold euclid, Rsum. simpl.
  match goal with |- R_sqrt.sqrt ?a = _ => replace a with 0%R by lra end. apply sqrt_0.
Qed.

(** The result of [init_centers] depends on the generators through
    their draws only. *)
Lemma init_centers_same_draws (g g' : rng) (X : mat) (k : pyint) :
  same_draws (int_value k) g g' -> init_centers g X k = init_centers g' X k.
Proof.
  intros [Hraw Hdraw]. unfold init_centers, init_state, random_randint.
  rewrite Hraw. repeat (destruct (decide _); [done|]). destruct k as [z|b]; [|done].
  cbn [int_value] in *. simpl.
  destruct (row_at X _) as [r0|e]; simpl; [|done].
  f_equal. apply for_each_ext. intros [C ind] kk Hkk%elem_of_seq.
  unfold kpp_step. destruct (kpp_weights X C kk ind) as [w|e]; simpl; [|done].
  unfold np_random_choice. rewrite Hdraw by lia. done.
Qed.

(** C4, amended.  [init_centers] and [fit] have no seed or generator
    parameter; their result is a function of [X], [k] and the draws of
    the ambient generators.  Two runs on the same [X] and [k] whose
    generators deliver the same draws, the integer of [random.randint]
    and the indices of the [k - 1] calls of [np.random.choice], return
    the same centers. *)
Theorem fit_deterministic_given_draws (fuel : nat) (g g' : rng) (X : mat) (k : pyint) :
  same_draws (int_value k) g g' ->
  init_centers g X k = init_centers g' X k /\
  fit fuel g X (PyInt k) = fit fuel g' X (PyInt k).
Proof.
  intros Hsame. pose proof (init_centers_same_draws g g' X k Hsame) as Hinit.
  split; [done|]. unfold fit, fit_run, fit_first. by rewrite Hinit.
Qed.

Lemma fit_deterministic_given_draws_witness :
  init_centers (Rng 0 (fun c _ => c)) (Mat 1 [[0]; [1]]%float) 2%Z
  = init_centers (Rng 0 (fun _ _ => 1)) (Mat 1 [[0]; [1]]%float) 2%Z /\
  fit 19 (Rng 0 (fun c _ => c)) (Mat 1 [[0]; [1]]%float) (PyInt 2%Z)
  = fit 19 (Rng 0 (fun _ _ => 1)) (Mat 1 [[0]; [1]]%float) (PyInt 2%Z).
Proof.
  apply (fit_deterministic_given_draws 19 (Rng 0 (fun c _ => c)) (Rng 0 (fun _ _ => 1))
           (Mat 1 [[0]; [1]]%float) 2%Z).
  split; [reflexivity|]. simpl. intros c p Hc. lia.
Defined.

(** The claim C4 fails: [fit] takes [X] and [k] only, and two calls
    with the same [X] and [k] return different centers when the
    ambient generators are in different states. *)
Lemma fit_depends_on_ambient_generator :
  fit 19 (Rng 0 (fun _ _ => 1)) (Mat 1 [[0]; [1]]%float) (PyInt 2%Z)
  = Some (Ok (Mat 1 [[0]; [1]]%float)) /\
  fit 19 (Rng 1 (fun _ _ => 0)) (Mat 1 [[0]; [1]]%float) (PyInt 2%Z)
  = Some (Ok (Mat 1 [[1]; [0]]%float)) /\
  fit 19 (Rng 0 (fun _ _ => 1)) (Mat 1 [[0]; [1]]%float) (PyInt 2%Z)
  <> fit 19 (Rng 1 (fun _ _ => 0)) (Mat 1 [[0]; [1]]%float) (PyInt 2%Z).
Proof.
  assert (fit 19 (Rng 0 (fun _ _ => 1)) (Mat 1 [[0]; [1]]%float) (PyInt 2%Z)
          = Some (Ok (Mat 1 [[0]; [1]]%float))) as H1 by by vm_compute.
  assert (fit 19 (Rng 1 (fun _ _ => 0)) (Mat 1 [[0]; [1]]%float) (PyInt 2%Z)
          = Some (Ok (Mat 1 [[1]; [0]]%float))) as H2 by by vm_compute.
  split; [done|]. split; [done|].
  rewrite H1, H2. by intros [= H].
Qed.

(** *** A sampler of numpy's kind *)

Lemma first_positive_spec (p : list float64) :
  (exists i x, p !! i = Some x /\ (0 <? x)%float = true) ->
  exists x, p !! first_positive p = Some x /\ (0 <? x)%float = true.
Proof.
  induction p as [|y p IH]; intros (i & x & Hi & Hx); [done|].
  cbn [first_positive].
  destruct (0 <? y)%float eqn:Hy; [by exists y|].
  destruct i as [|i]; simpl in Hi; [congruence|].
  apply IH. eauto.
Qed.

Lemma kahan_step_nan (c x : float64) : (kahan_step (nan, c) x).1 = nan.
Proof. unfold kahan_step. simpl. by rewrite add_nan_l. Qed.

Lemma kahan_fold_nan (p : list float64) (c : float64) : (foldl kahan_step (nan, c) p).1 = nan.
Proof.
  revert c. induction p as [|x p IH]; intros c; [done|]. cbn [foldl].
  unfold kahan_step at 2. rewrite add_nan_l. apply IH.
Qed.

Lemma kahan_step_zero (s c x : float64) :
  (s =? 0)%float = true -> (c =? 0)%float = true -> (x =? 0)%float = true ->
  ((kahan_step (s, c) x).1 =? 0)%float = true /\ ((kahan_step (s, c) x).2 =? 0)%float = true.
Proof.
  intros [->| ->]%is_zero_cases [->| ->]%is_zero_cases [->| ->]%is_zero_cases;
    by vm_compute.
Qed.

Lemma kahan_step_nan_elem (s c : float64) : (kahan_step (s, c) nan).1 = nan.
Proof. unfold kahan_step. simpl. by rewrite sub_nan_l, add_nan_r. Qed.

(** The compensated sum of a vector without positive or negative
    entry is a zero or [nan]. *)
Lemma kahan_fold_no_sign (p : list float64) (s c : float64) :
  (s =? 0)%float = true -> (c =? 0)%float = true ->
  Forall (fun x => (x <? 0)%float = false /\ (0 <? x)%float = false) p ->
  (foldl kahan_step (s, c) p).1 = nan \/ ((foldl kahan_step (s, c) p).1 =? 0)%float = true.
Proof.
  intros Hs Hc Hp. revert s c Hs Hc.
  induction Hp as [|x p [Hneg Hpos] _ IH]; intros s c Hs Hc; [by right|].
  cbn [foldl]. destruct (sign_cases x) as [->|[Hz|[H|H]]]; [|  |congruence|congruence].
  - left. pose proof (kahan_step_nan_elem s c) as Hnan.
    destruct (kahan_step (s, c) nan) as [s' c']. simpl in Hnan. subst s'.
    apply kahan_fold_nan.
  - destruct (kahan_step_zero s c x Hs Hc Hz) as [Hs' Hc'].
    destruct (kahan_step (s, c) x) as [s' c']. by apply IH.
Qed.

(** A vector that passes the validation of [np.random.choice] has a
    positive entry. *)
Lemma valid_probs_positive (g : rng) (c : nat) (p : list float64) (i : nat) :
  np_random_choice g c p = Ok i ->
  exists j x, p !! j = Some x /\ (0 <? x)%float = true.
Proof.
  unfold np_random_choice. destruct (decide _) as [|Hne]; [done|].
  destruct (fisnan (kahan_sum p)) eqn:Hnan; [done|].
  destruct (existsb _ p) eqn:Hneg; [done|].
  destruct (atol <? _)%float eqn:Hsum; [done|]. intros _.
  destruct (decide (Exists (fun x => (0 <? x)%float = true) p)) as [Hex|Hno].
  { apply Exists_exists in Hex as (x & Hx & Hpos).
    apply list_elem_of_lookup_1 in Hx as [j Hj]. by exists j, x. }
  exfalso. apply not_Exists_Forall in Hno; [|intros x; apply _].
  assert (Forall (fun x => (x <? 0)%float = false /\ (0 <? x)%float = false) p) as Hall.
  { apply Forall_forall. intros x Hx. split.
    - destruct (x <? 0)%float eqn:Hx0; [|done].
      assert (existsb (fun x => (x <? 0)%float) p = true) as Habs; [|congruence].
      apply existsb_exists. exists x. split; [by apply list_elem_of_In|done].
    - rewrite Forall_forall in Hno. apply not_true_is_false. by apply Hno. }
  destruct p as [|x p]; [done|]. cbn [kahan_sum] in *.
  apply Forall_cons in Hall as [[Hx1 Hx2] Hall].
  destruct (sign_cases x) as [->|[Hz|[H|H]]]; [| |congruence|congruence].
  - by rewrite kahan_fold_nan in Hnan.
  - destruct (kahan_fold_no_sign p x 0%float Hz eq_refl Hall) as [Hn|Hz'].
    + by rewrite Hn in Hnan.
    + apply is_zero_cases in Hz' as [Hz'|Hz']; rewrite Hz' in Hsum; by vm_compute in Hsum.
Qed.

Lemma first_positive_ok (raw : nat) : rng_ok (Rng raw (fun _ p => first_positive p)).
Proof.
  intros c p Hchoice. simpl in *.
  apply first_positive_spec. by eapply valid_probs_positive.
Qed.

(** ** The loop of [fit] *)

Lemma continue_loop_spec (A B : mat) (i : nat) :
  continue_loop A B i = true <-> (shift B A =? 0)%float = false /\ i < 20.
Proof.
  unfold continue_loop, truthy, shift.
  rewrite andb_true_iff, negb_true_iff, bool_decide_eq_true. done.
Qed.

Lemma continue_loop_stop (A B : mat) (i : nat) :
  continue_loop A B i = false <-> (shift B A =? 0)%float = true \/ 20 <= i.
Proof.
  unfold continue_loop, truthy, shift.
  rewrite andb_false_iff, negb_false_iff, bool_decide_eq_false. split; intros [?|?]; auto; right; lia.
Qed.

(** The loop returns what the stopping rule says. *)
Lemma fit_while_spec (X C0 : mat) (fuel : nat) :
  forall A B i,
    1 <= i <= 20 -> 20 - i <= fuel ->
    iterate X (i - 1) C0 = Ok A -> update X A = Ok B ->
    (forall t, 1 <= t < i -> moved X C0 t) ->
    exists r, fit_while fuel X A B i = Some r /\
              forall C j, r = Ok (C, j) -> stopped_at X C0 C j.
Proof.
  induction fuel as [|fuel IH]; intros A B i Hi Hfuel HA HB Hmoved.
  - assert (i = 20) as -> by lia. simpl.
    rewrite (proj2 (continue_loop_stop A B 20)) by (right; lia).
    eexists. split; [done|].
    intros C j [= <- <-]. split; [lia|]. split; [|done].
    exists A. by auto.
  - simpl. destruct (continue_loop A B i) eqn:Hcont.
    + apply continue_loop_spec in Hcont as [Hsum Hlt].
      destruct (assign X B) as [labels|e] eqn:Hlab; [|by eexists].
      destruct (calc_centers X B labels) as [newer|e] eqn:Hnew; [|by eexists].
      apply IH; [lia|lia| | |].
      * replace (S i - 1) with (S (i - 1)) by lia. simpl. by rewrite HA.
      * unfold update. by rewrite Hlab.
      * intros t Ht. destruct (decide (t = i)) as [->|]; [|apply Hmoved; lia].
        by exists A, B.
    + eexists. split; [done|]. intros C j [= <- <-].
      split; [lia|]. split; [|done].
      exists A. repeat split; try done.
      apply continue_loop_stop in Hcont as [Hz|Hge]; [by left|right; lia].
Qed.

(** Conversely, the loop returns the centers at which the stopping
    rule holds. *)
Lemma fit_while_complete (X C0 C : mat) (i : nat) :
  stopped_at X C0 C i ->
  forall fuel A B j,
    1 <= j <= i -> i - j <= fuel ->
    iterate X (j - 1) C0 = Ok A -> update X A = Ok B ->
    fit_while fuel X A B j = Some (Ok (C, i)).
Proof.
  intros (Hi & (Cprev & Hprev & Hlast & Hstop) & Hmoved).
  induction fuel as [|fuel IH]; intros A B j Hj Hfuel HA HB.
  - assert (j = i) as -> by lia.
    assert (A = Cprev) as -> by congruence. assert (B = C) as -> by congruence.
    simpl. rewrite (proj2 (continue_loop_stop Cprev C i)); [done|].
    destruct Hstop; [by left|right; lia].
  - destruct (decide (j = i)) as [->|Hne].
    + assert (A = Cprev) as -> by congruence. assert (B = C) as -> by congruence.
      simpl. rewrite (proj2 (continue_loop_stop Cprev C i)); [done|].
      destruct Hstop; [by left|right; lia].
    + destruct (Hmoved j) as (P & Q & HP & HQ & Hsum); [lia|].
      assert (P = A) as -> by congruence. assert (Q = B) as -> by congruence.
      simpl. rewrite (proj2 (continue_loop_spec A B j)) by (split; [done|lia]).
      assert (iterate X (S j - 1) C0 = Ok B) as HB'.
      { replace (S j - 1) with (S (j - 1)) by lia. simpl. by rewrite HA. }
      assert (exists newer, update X B = Ok newer) as [newer Hnewer].
      { destruct (decide (S j = i)) as [<-|Hne'].
        - exists C. congruence.
        - destruct (Hmoved (S j)) as (P' & Q' & HP' & HQ' & _); [lia|].
          exists Q'. congruence. }
      pose proof Hnewer as Hnewer'. unfold update in Hnewer'.
      destruct (assign X B) as [labels|e]; simpl in Hnewer'; [|done].
      rewrite Hnewer'. apply IH; [lia|lia|done|done].
Qed.

(** With fuel for 19 runs of the body the loop never runs out. *)
Lemma fit_run_spec (fuel : nat) (g : rng) (X : mat) (k : pyobj) :
  19 <= fuel ->
  exists r, fit_run fuel g X k = Some r /\
    forall C i, r = Ok (C, i) <->
      exists z C0, k = PyInt z /\ fisnan (np_sum2 X) = false /\
                   init_centers g X z = Ok C0 /\ stopped_at X C0 C i.
Proof.
  intros Hfuel. unfold fit_run.
  destruct (fisnan (np_sum2 X)) eqn:Hnan.
  { eexists. split; [done|]. intros C i. split; [done|]. by intros (z & C0 & _ & ? & _). }
  destruct k as [z|x|s].
  2,3: eexists; split; [done|]; intros C i; split; [done|]; by intros (z & C0 & ? & _).
  destruct (fit_first g X z) as [[C0 C1]|e] eqn:Hfirst.
  - unfold fit_first in Hfirst.
    destruct (init_centers g X z) as [C0'|e] eqn:Hinit; simpl in Hfirst; [|done].
    destruct (assign X C0') as [labels|e] eqn:Hlab; simpl in Hfirst; [|done].
    destruct (calc_centers X C0' labels) as [C1'|e] eqn:Hcalc; simpl in Hfirst; [|done].
    injection Hfirst as -> ->.
    assert (update X C0 = Ok C1) as Hup by (unfold update; by rewrite Hlab).
    destruct (fit_while_spec X C0 fuel C0 C1 1) as (r & Hr & Hpost); try done; try lia.
    exists r. split; [done|]. intros C i. split.
    + intros ->. exists z, C0. split_and!; try done. by apply Hpost.
    + intros (z' & C0' & [= <-] & _ & Hinit' & Hstop).
      rewrite Hinit in Hinit'. injection Hinit' as <-.
      pose proof Hstop as (Hi & _).
      rewrite (fit_while_complete X C0 C i Hstop fuel C0 C1 1) in Hr; try done; try lia.
      congruence.
  - eexists. split; [done|]. intros C i. split; [done|].
    intros (z' & C0 & [= <-] & _ & Hinit & Hi & (Cprev & Hprev & Hlast & _) & Hmoved).
    exfalso. unfold fit_first in Hfirst. rewrite Hinit in Hfirst. simpl in Hfirst.
    assert (exists C1, update X C0 = Ok C1) as [C1 HC1].
    { destruct (decide (i = 1)) as [->|Hne].
      - exists C. simpl in Hprev. congruence.
      - destruct (Hmoved 1) as (P & Q & HP & HQ & _); [lia|].
        exists Q. simpl in HP. congruence. }
    unfold update in HC1.
    destruct (assign X C0) as [labels|e']; simpl in *; [|done].
    by rewrite HC1 in Hfirst.
Qed.

(** *** Shapes along the iterations *)

Lemma update_total (X C : mat) :
  wf_mat X -> width X <= shape0 X ->
  wf_mat C -> width C = width X -> 1 <= shape0 C <= shape0 X ->
  exists C', update X C = Ok C' /\ wf_mat C' /\ width C' = width X /\ shape0 C' = shape0 C.
Proof.
  intros HX Hdn HC Hw Hk. unfold update.
  destruct (assign_cases X C HX HC)
    as [[Hw' _]|[(_ & Hlt & _)|[(_ & Hk0 & _)|(_ & _ & _ & L & -> & HL & _)]]];
    [congruence|lia|lia|].
  simpl. destruct (calc_centers_total X C L) as [M HM]; try done.
  exists M. split; [done|].
  apply calc_centers_ok_shape in HM as (_ & _ & Hk' & Hw' & Hwf'). auto.
Qed.

Lemma fit_while_total (X : mat) (fuel : nat) :
  wf_mat X -> width X <= shape0 X ->
  forall A B i,
    20 - i <= fuel ->
    wf_mat B -> width B = width X -> 1 <= shape0 B <= shape0 X ->
    exists C j, fit_while fuel X A B i = Some (Ok (C, j)).
Proof.
  intros HX Hdn. induction fuel as [|fuel IH]; intros A B i Hfuel HB Hw Hk.
  - simpl. rewrite (proj2 (continue_loop_stop A B i)) by (right; lia). by eexists _, _.
  - simpl. destruct (continue_loop A B i); [|by eexists _, _].
    destruct (update_total X B) as (C' & HC' & Hwf' & Hw' & Hk'); try done.
    unfold update in HC'. destruct (assign X B) as [labels|e]; simpl in HC'; [|done].
    rewrite HC'. apply IH; [lia|done|done|lia].
Qed.

Lemma fit_while_shape (X : mat) (k : nat) (fuel : nat) :
  forall A B i C j,
    fit_while fuel X A B i = Some (Ok (C, j)) ->
    shape0 B = k /\ width B = width X /\ (wf_mat X -> wf_mat B) ->
    shape0 C = k /\ width C = width X /\ (wf_mat X -> wf_mat C).
Proof.
  induction fuel as [|fuel IH]; intros A B i C j; simpl.
  - destruct (continue_loop A B i); [done|]. by intros [= <- <-].
  - destruct (continue_loop A B i); [|by intros [= <- <-]].
    destruct (assign X B) as [labels|e]; [|done].
    destruct (calc_centers X B labels) as [newer|e] eqn:Hnew; [|done].
    intros Hloop (Hk & Hw & Hwf). apply (IH _ _ _ _ _ Hloop).
    apply calc_centers_ok_shape in Hnew as (_ & _ & Hk' & Hw' & Hwf').
    split; [congruence|]. by split.
Qed.

(** On an array with at least as many points as dimensions, [fit]
    returns centers whenever the seeding succeeded. *)
Lemma fit_run_total (fuel : nat) (g : rng) (X : mat) (z : pyint) (C0 : mat) :
  19 <= fuel -> wf_mat X -> width X <= shape0 X ->
  fisnan (np_sum2 X) = false -> init_centers g X z = Ok C0 ->
  exists C i, fit_run fuel g X (PyInt z) = Some (Ok (C, i)).
Proof.
  intros Hfuel HX Hdn Hnan Hinit. unfold fit_run, fit_first. rewrite Hnan, Hinit. simpl.
  apply init_centers_ok_shape in Hinit as (Hz & Hk0 & Hw0 & Hwf0).
  destruct (update_total X C0) as (C1 & HC1 & Hwf1 & Hw1 & Hk1); try done; [by apply Hwf0|lia|].
  unfold update in HC1. destruct (assign X C0) as [labels|e]; simpl in HC1; [|done].
  simpl. rewrite HC1. simpl. apply fit_while_total; try done; lia.
Qed.

(** C3. [fit] terminates: fuel for 19 runs of the body of the [while]
    is always enough.  It returns centers [C] exactly when the sum of
    [X] is not [nan], [k] is an integer, the seeding returns centers
    [C0], and [C] is the result of [i] iterations from [C0] with
    [1 <= i <= 20] such that the sum of all coordinate differences
    between the centers of the last iteration and the previous ones is
    zero or [i = 20], while that sum was not zero at any earlier
    iteration.  On an array with at least as many points as
    dimensions, [fit] returns centers whenever the seeding does. *)
Theorem fit_stops_within_20_iterations (fuel : nat) (g : rng) (X : mat) (k : pyobj) :
  19 <= fuel ->
  exists r, fit fuel g X k = Some r /\
    (forall C, r = Ok C <->
       exists z C0 i, k = PyInt z /\ fisnan (np_sum2 X) = false /\
         init_centers g X z = Ok C0 /\
         1 <= i <= 20 /\
         (exists Cprev, iterate X (i - 1) C0 = Ok Cprev /\ update X Cprev = Ok C /\
                        ((np_sum2 (mat_sub C Cprev) =? 0)%float = true \/ i = 20)) /\
         forall t, 1 <= t < i ->
           exists P Q, iterate X (t - 1) C0 = Ok P /\ update X P = Ok Q /\
                       (np_sum2 (mat_sub Q P) =? 0)%float = false) /\
    (wf_mat X -> width X <= shape0 X -> fisnan (np_sum2 X) = false ->
     forall z C0, k = PyInt z -> init_centers g X z = Ok C0 -> exists C, r = Ok C).
Proof.
  intros Hfuel. destruct (fit_run_spec fuel g X k Hfuel) as (r & Hr & Hpost).
  unfold fit. rewrite Hr. destruct r as [[C i]|e].
  - eexists. split; [done|]. split.
    + intros C'. split.
      * intros [= <-].
        destruct (proj1 (Hpost C i) eq_refl) as (z & C0 & -> & Hnan & Hinit & Hstop).
        by exists z, C0, i.
      * intros (z & C0 & i' & Hk & Hnan & Hinit & Hstop).
        assert (Ok (C, i) = Ok (C', i')) as [= <- <-]; [|done].
        apply Hpost. by exists z, C0.
    + intros. by eexists.
  - eexists. split; [done|]. split.
    + intros C. split; [done|].
      intros (z & C0 & i' & Hk & Hnan & Hinit & Hstop). exfalso.
      assert (Err e = Ok (C, i')) as Habs; [|done].
      apply Hpost. by exists z, C0.
    + intros HX Hdn Hnan z C0 -> Hinit. exfalso.
      destruct (fit_run_total fuel g X z C0) as (C & i & HC); try done. congruence.
Qed.

Lemma fit_stops_within_20_iterations_witness :
  fit 19 (Rng 0 (fun _ _ => 1)) (Mat 1 [[0]; [1]; [5]]%float) (PyInt 2%Z)
  = Some (Ok (Mat 1 [[0.5]; [5]]%float)) /\
  exists r, fit 19 (Rng 0 (fun _ _ => 1)) (Mat 1 [[0]; [1]; [5]]%float) (PyInt 2%Z) = Some r /\
    (forall C, r = Ok C <->
       exists z C0 i, PyInt 2%Z = PyInt z /\
         fisnan (np_sum2 (Mat 1 [[0]; [1]; [5]]%float)) = false /\
         init_centers (Rng 0 (fun _ _ => 1)) (Mat 1 [[0]; [1]; [5]]%float) z = Ok C0 /\
         1 <= i <= 20 /\
         (exists Cprev, iterate (Mat 1 [[0]; [1]; [5]]%float) (i - 1) C0 = Ok Cprev /\
                        update (Mat 1 [[0]; [1]; [5]]%float) Cprev = Ok C /\
                        ((np_sum2 (mat_sub C Cprev) =? 0)%float = true \/ i = 20)) /\
         forall t, 1 <= t < i ->
           exists P Q, iterate (Mat 1 [[0]; [1]; [5]]%float) (t - 1) C0 = Ok P /\
                       update (Mat 1 [[0]; [1]; [5]]%float) P = Ok Q /\
                       (np_sum2 (mat_sub Q P) =? 0)%float = false) /\
    (wf_mat (Mat 1 [[0]; [1]; [5]]%float) ->
     width (Mat 1 [[0]; [1]; [5]]%float) <= shape0 (Mat 1 [[0]; [1]; [5]]%float) ->
     fisnan (np_sum2 (Mat 1 [[0]; [1]; [5]]%float)) = false ->
     forall z C0, PyInt 2%Z = PyInt z ->
       init_centers (Rng 0 (fun _ _ => 1)) (Mat 1 [[0]; [1]; [5]]%float) z = Ok C0 ->
       exists C, r = Ok C).
Proof.
  split; [by vm_compute|].
  apply (fit_stops_within_20_iterations 19 (Rng 0 (fun _ _ => 1))
           (Mat 1 [[0]; [1]; [5]]%float) (PyInt 2%Z)).
  lia.
Defined.

(** ** [fit] and [fit_assign] *)

Lemma init_centers_ok_int (g : rng) (X : mat) (k : pyint) (C : mat) :
  init_centers g X k = Ok C -> exists z : Z, k = Int z.
Proof.
  unfold init_centers.
  destruct (init_state g X k) as [st|e] eqn:Hst; simpl; [|done].
  intros _. by apply init_state_drawn in Hst as (Hz & _).
Qed.

Lemma fit_ok_shape (fuel : nat) (g : rng) (X : mat) (k : pyobj) (C : mat) :
  fit fuel g X k = Some (Ok C) ->
  fisnan (np_sum2 X) = false /\
  exists z : Z, k = PyInt z /\ (0 < z <= Z.of_nat (shape0 X))%Z /\
            shape0 C = Z.to_nat z /\ width C = width X /\ (wf_mat X -> wf_mat C).
Proof.
  unfold fit, fit_run. intros Hfit.
  destruct (fisnan (np_sum2 X)); [done|]. split; [done|].
  destruct k as [k| |]; try done.
  destruct (fit_first g X k) as [[C0 C1]|e] eqn:Hfirst; [|done].
  unfold fit_first in Hfirst.
  destruct (init_centers g X k) as [C0'|e] eqn:Hinit; simpl in Hfirst; [|done].
  destruct (assign X C0') as [labels|e] eqn:Hlab; simpl in Hfirst; [|done].
  destruct (calc_centers X C0' labels) as [C1'|e] eqn:Hcalc; simpl in Hfirst; [|done].
  injection Hfirst as -> ->.
  destruct (init_centers_ok_int _ _ _ _ Hinit) as [z ->]. exists z. split; [done|].
  apply init_centers_ok_shape in Hinit as (Hz & Hk0 & Hw0 & Hwf0). cbn [int_value] in *.
  apply calc_centers_ok_shape in Hcalc as (_ & _ & Hk1 & Hw1 & Hwf1).
  destruct (fit_while fuel X C0 C1 1) as [[[C' j]|e]|] eqn:Hloop; try done.
  injection Hfit as <-. split; [done|].
  apply (fit_while_shape X (Z.to_nat z)) in Hloop; [done|].
  split; [congruence|]. by split.
Qed.

(** X9. When [fit] returns centers, the data had no [nan] in its sum,
    [k] is an integer with [0 < k <= n], and the result is a [k] x d
    array, d the width of [X]: the number of centers never changes
    during the iterations, whatever the fuel given to the loop. *)
Theorem fit_returns_k_centers (fuel : nat) (g : rng) (X : mat) (k : pyobj) (C : mat) :
  fit fuel g X k = Some (Ok C) ->
  fisnan (np_sum2 X) = false /\
  exists z : Z, k = PyInt z /\ (0 < z <= Z.of_nat (shape0 X))%Z /\
            shape0 C = Z.to_nat z /\ width C = width X /\ (wf_mat X -> wf_mat C).
Proof. apply fit_ok_shape. Qed.

Lemma fit_returns_k_centers_witness :
  fisnan (np_sum2 (Mat 1 [[0]; [1]]%float)) = false /\
  exists z : Z, PyInt 2%Z = PyInt z /\
            (0 < z <= Z.of_nat (shape0 (Mat 1 [[0]; [1]]%float)))%Z /\
            shape0 (Mat 1 [[0]; [1]]%float) = Z.to_nat z /\
            width (Mat 1 [[0]; [1]]%float) = width (Mat 1 [[0]; [1]]%float) /\
            (wf_mat (Mat 1 [[0]; [1]]%float) -> wf_mat (Mat 1 [[0]; [1]]%float)).
Proof.
  apply (fit_returns_k_centers 19 (Rng 0 (fun _ _ => 1)) (Mat 1 [[0]; [1]]%float) (PyInt 2%Z)
           (Mat 1 [[0]; [1]]%float)).
  by vm_compute.
Defined.

(** X10. [fit_assign] is [fit] followed by [assign] on the centers
    found: its own tests on [X] and [k] are those of [fit].  On an
    array [X] whose rows all have the width of [X], the final [assign]
    cannot raise: [fit_assign] returns [(C, L)] exactly when [fit]
    returns [C] and [L] labels [X] by [C], it raises exactly the
    exceptions of [fit], and [L] then has [n] labels in [[0, k)]. *)
Theorem fit_assign_is_fit_then_assign (fuel : nat) (g : rng) (X : mat) (k : pyobj) :
  wf_mat X ->
  (forall C L, fit_assign fuel g X k = Some (Ok (C, L)) <->
               fit fuel g X k = Some (Ok C) /\ assign X C = Ok L) /\
  (forall e, fit_assign fuel g X k = Some (Err e) <-> fit fuel g X k = Some (Err e)) /\
  (fit_assign fuel g X k = None <-> fit fuel g X k = None) /\
  (forall C, fit fuel g X k = Some (Ok C) ->
     exists L, fit_assign fuel g X k = Some (Ok (C, L)) /\
               length L = shape0 X /\
               Forall (fun z => (0 <= z < Z.of_nat (shape0 C))%Z) L).
Proof.
  intros HX.
  assert (fit_assign fuel g X k
          = match fit fuel g X k with
            | Some (Ok C) => Some (L ← assign X C; Ok (C, L))
            | Some (Err e) => Some (Err e)
            | None => None
            end) as Hcomp.
  { unfold fit_assign, fit, fit_run.
    destruct (fisnan (np_sum2 X)); [done|]. by destruct k. }
  assert (forall C, fit fuel g X k = Some (Ok C) ->
            exists L, assign X C = Ok L /\ length L = shape0 X /\
                      Forall (fun z => (0 <= z < Z.of_nat (shape0 C))%Z) L) as Hlab.
  { intros C HC. apply fit_ok_shape in HC as (_ & z & _ & Hz & Hk & Hw & Hwf).
    destruct (assign_cases X C HX (Hwf HX))
      as [[Hw' _]|[(_ & Hlt & _)|[(_ & Hk0 & _)|(_ & _ & _ & L & HL)]]];
      [congruence|lia|lia|by exists L]. }
  rewrite Hcomp. destruct (fit fuel g X k) as [[C|e]|] eqn:Hfit.
  - destruct (Hlab C eq_refl) as (L & HL & Hlen & Hrange). rewrite HL. simpl.
    split_and!.
    + intros C' L'. split.
      * by intros [= <- <-].
      * intros [[= <-] HL']. congruence.
    + intros e. by split.
    + by split.
    + intros C' [= <-]. by exists L.
  - split_and!; try done.
    + intros C L. split; [done|]. by intros [? _].
    + intros e'. split; by intros [= <-].
  - split_and!; try done.
    intros C L. split; [done|]. by intros [? _].
Qed.

Lemma fit_assign_is_fit_then_assign_witness :
  fit_assign 19 (Rng 0 (fun _ _ => 1)) (Mat 1 [[0]; [1]]%float) (PyInt 2%Z)
  = Some (Ok (Mat 1 [[0]; [1]]%float, [0; 1]%Z)) <->
  fit 19 (Rng 0 (fun _ _ => 1)) (Mat 1 [[0]; [1]]%float) (PyInt 2%Z)
  = Some (Ok (Mat 1 [[0]; [1]]%float)) /\
  assign (Mat 1 [[0]; [1]]%float) (Mat 1 [[0]; [1]]%float) = Ok [0; 1]%Z.
Proof.
  destruct (fit_assign_is_fit_then_assign 19 (Rng 0 (fun _ _ => 1))
              (Mat 1 [[0]; [1]]%float) (PyInt 2%Z)) as [Hok _].
  - repeat constructor.
  - exact (Hok (Mat 1 [[0]; [1]]%float) [0; 1]%Z).
Defined.

(** *** The exceptions of [fit] on arrays *)

Lemma Forall_zero_rows {A : Type} (P : A -> Prop) (v : A) (ind : list nat) (l : list A) :
  P v -> Forall P l -> Forall P (foldl (fun acc i => <[i := v]> acc) l ind).
Proof.
  intros Hv. revert l. induction ind as [|j ind IH]; intros l Hl; simpl; [done|].
  apply IH. by apply Forall_insert.
Qed.

Lemma length_zero_rows {A : Type} (v : A) (ind : list nat) (l : list A) :
  length (foldl (fun acc i => <[i := v]> acc) l ind) = length l.
Proof.
  revert l. induction ind as [|j ind IH]; intros l; simpl; [done|].
  by rewrite IH, length_insert.
Qed.

Lemma np_min_total (l : list float64) : l <> [] -> exists x, np_min l = Ok x.
Proof. destruct l; [done|]. intros _. by eexists. Qed.

(** The only exception of [calc_centers] on arrays of one width and
    [n] labels is the one of the guard of [measure_dist], reached
    through the fallback when there are fewer points than
    dimensions. *)
Lemma calc_centers_raises_on_arrays (X C : mat) (L : list Z) (e : error) :
  wf_mat C -> width X = width C -> shape0 X = length L ->
  calc_centers X C L = Err e ->
  e = MoreCentersThanPoints /\ shape0 X < width X.
Proof.
  intros HC Hw Hn He.
  apply calc_centers_err_fallback in He as (kk & Hkk & Hnan & Hfall); try done.
  apply np_sum_nil_not_nan in Hnan.
  destruct (decide (width X <= shape0 X)) as [Hle|Hlt].
  - destruct (fallback_row_total X C kk) as (r & Hr & _); try done. congruence.
  - split; [|lia]. revert Hfall. unfold fallback_row, row_at.
    destruct (rows C !! kk) as [c|] eqn:Hc.
    2:{ apply lookup_ge_None in Hc. unfold shape0 in Hkk. lia. }
    simpl. unfold measure_dist. simpl.
    assert (length c = width X) as Hlen.
    { rewrite Hw. unfold wf_mat in HC. rewrite Forall_forall in HC.
      apply HC. by eapply list_elem_of_lookup_2. }
    rewrite decide_True by lia. simpl. congruence.
Qed.

Lemma np_random_choice_err_nonempty g c p e :
  p <> [] -> np_random_choice g c p = Err e -> e ∈ choice_raises.
Proof.
  intros Hp. unfold np_random_choice, choice_raises. rewrite decide_False by done.
  repeat (destruct (_ : bool); [intros [= <-]; in_list|]). done.
Qed.

(** Lines 50-60 cannot raise on an array. *)
Lemma kpp_weights_total (X C : mat) (m : nat) (ind : list nat) :
  wf_mat X -> width C = width X -> Forall (fun r => length r = width X) (rows C) ->
  1 <= m <= length (rows C) -> m <= shape0 X ->
  exists w, kpp_weights X C m ind = Ok w /\ length w = shape0 X.
Proof.
  intros HX Hw HC Hm Hmn. unfold kpp_weights.
  rewrite measure_dist_same_width; try done.
  2:{ unfold wf_mat. simpl. rewrite Hw. by apply Forall_take. }
  2:{ unfold shape0 at 1. simpl. rewrite length_take. lia. }
  simpl. unfold shape0 at 1 2. simpl. rewrite length_take.
  replace (m `min` length (rows C)) with m by lia.
  set (rs := map (replace_eq 0%float infinity) _).
  destruct (traverse_lookup_spec np_min (fun _ _ => True) rs) as (bs & -> & Hlen & _).
  { intros i a Ha. destruct (np_min_total a) as [x Hx]; [|by exists x].
    apply list_elem_of_lookup_2 in Ha. unfold rs in Ha.
    apply list_elem_of_fmap in Ha as (a' & -> & Ha').
    assert (length a' = m) as Hlen'.
    { revert a' Ha'. apply Forall_forall, Forall_zero_rows.
      - by rewrite length_replicate.
      - apply Forall_forall. intros r (r' & -> & (pt & -> & _)%list_elem_of_fmap)%list_elem_of_fmap.
        rewrite !length_map, length_take. lia. }
    unfold replace_eq. destruct a'; simpl in *; [lia|done]. }
  simpl. eexists. split; [done|].
  unfold replace_eq at 1. rewrite length_map, Hlen. unfold rs.
  by rewrite length_map, length_zero_rows, !length_map.
Qed.

Lemma kpp_step_raises (g : rng) (X : mat) (k m : nat) (st : mat * list nat) (e : error) :
  rng_ok g -> wf_mat X -> 1 <= m < k -> k <= shape0 X -> well_shaped X k st ->
  kpp_step g X st m = Err e -> e ∈ choice_raises.
Proof.
  intros Hg HX Hm Hk. destruct st as [C ind]. intros (Hw & Hlen & HC). simpl in *.
  unfold kpp_step.
  destruct (kpp_weights_total X C m ind) as (w & -> & Hlenw); try done; try lia.
  simpl.
  destruct (np_random_choice g m (kpp_probs w)) as [i|e'] eqn:Hdraw; simpl.
  2:{ intros [= ->]. eapply np_random_choice_err_nonempty; [|done].
      intros Hnil%(f_equal length). unfold kpp_probs in Hnil.
      rewrite length_map in Hnil. simpl in Hnil. lia. }
  pose proof (np_random_choice_ok _ _ _ _ Hdraw) as Hi.
  rewrite Hi in Hdraw. destruct (Hg _ _ Hdraw) as (a & Ha & _). rewrite <- Hi in Ha.
  apply lookup_lt_Some in Ha. unfold kpp_probs in Ha. rewrite length_map in Ha.
  unfold row_at. destruct (lookup_lt_is_Some_2 (rows X) i) as [r ->]; [unfold shape0 in *; lia|].
  done.
Qed.

Lemma kpp_step_well_shaped (g : rng) (X : mat) (k m : nat) (st st' : mat * list nat) :
  wf_mat X -> well_shaped X k st -> kpp_step g X st m = Ok st' -> well_shaped X k st'.
Proof.
  intros HX. destruct st as [C ind]. intros (Hw & Hlen & HC). simpl in *.
  unfold kpp_step.
  destruct (kpp_weights X C m ind) as [w|e]; simpl; [|done].
  destruct (np_random_choice _ _ _) as [i|e]; simpl; [|done].
  unfold row_at. destruct (rows X !! i) as [r|] eqn:Hr; simpl; [|done].
  intros [= <-]. unfold well_shaped. simpl. split; [done|]. split.
  - by rewrite length_insert.
  - apply Forall_insert; [done|]. unfold wf_mat in HX. rewrite Forall_forall in HX.
    apply HX. by eapply list_elem_of_lookup_2.
Qed.

(** The exceptions of [init_centers] on an array: its own two, the
    one of [np.zeros] on a [bool], and those of the validation of the
    probabilities. *)
Lemma init_state_raises (g : rng) (X : mat) (k : pyint) (e : error) :
  rng_ok g -> wf_mat X -> init_state g X k = Err e ->
  (e = TooManyClusters /\ (Z.of_nat (shape0 X) < int_value k)%Z) \/
  (e = NonPositiveClusters /\ (int_value k <= 0)%Z) \/
  (e = BoolDimension /\ k = Bool true /\ 1 <= shape0 X) \/
  ((0 < int_value k <= Z.of_nat (shape0 X))%Z /\ e ∈ choice_raises).
Proof.
  intros Hg HX. unfold init_state.
  destruct (decide _) as [|Hle]; [intros [= <-]; by left|].
  destruct (decide _) as [|Hpos]; [intros [= <-]; right; by left|].
  destruct k as [z|b].
  2:{ intros [= <-]. right. right. left. split; [done|].
      destruct b; simpl in *; [split; [done|lia]|lia]. }
  cbn [int_value] in *.
  intros He. right. right. right. split; [lia|].
  unfold random_randint in He. rewrite decide_False in He by lia. simpl in He.
  unfold row_at in He.
  destruct (lookup_lt_is_Some_2 (rows X)
              (Z.to_nat (0 + Z.of_nat (randint_raw g) mod (Z.of_nat (shape0 X) - 1 - 0 + 1))))
    as [r0 Hr0].
  { pose proof (Z.mod_pos_bound (Z.of_nat (randint_raw g)) (Z.of_nat (shape0 X) - 1 - 0 + 1)).
    unfold shape0 in *. lia. }
  rewrite Hr0 in He. simpl in He.
  apply (for_each_seq_err _ (fun _ => well_shaped X (Z.to_nat z))) in He
    as (m & st & Hm & Hinv & Hstep).
  - apply (kpp_step_raises g X (Z.to_nat z) m st); try done; lia.
  - unfold well_shaped. simpl. split; [done|]. split.
    + by rewrite length_insert, length_replicate.
    + apply Forall_insert.
      * apply Forall_forall. intros r [-> _]%elem_of_replicate. by rewrite length_replicate.
      * unfold wf_mat in HX. rewrite Forall_forall in HX.
        apply HX. by eapply list_elem_of_lookup_2.
  - intros m s s' _. by apply kpp_step_well_shaped.
Qed.

Lemma fit_while_raises (X : mat) (k : nat) (fuel : nat) :
  wf_mat X -> 1 <= k <= shape0 X ->
  forall A B i e,
    shape0 B = k -> width B = width X -> wf_mat B ->
    fit_while fuel X A B i = Some (Err e) ->
    e = MoreCentersThanPoints /\ shape0 X < width X.
Proof.
  intros HX Hk. induction fuel as [|fuel IH]; intros A B i e HkB HwB HB; simpl.
  - by destruct (continue_loop A B i).
  - destruct (continue_loop A B i); [|done].
    destruct (assign_cases X B HX HB)
      as [[Hw' _]|[(_ & Hlt & _)|[(_ & Hk0 & _)|(_ & _ & _ & L & -> & HL & _)]]];
      [congruence|lia|lia|].
    destruct (calc_centers X B L) as [newer|e'] eqn:Hnew.
    + apply calc_centers_ok_shape in Hnew as (_ & _ & Hk' & Hw' & Hwf').
      apply IH; [congruence|done|by apply Hwf'].
    + intros [= ->]. by apply (calc_centers_raises_on_arrays X B L).
Qed.



(** ** [fit] at the two boundaries of [k] *)


(** *** One cluster *)

(** The mean of a single value is this value. *)
Lemma np_mean_singleton (x : float64) : np_mean [x] = x.
Proof.
  unfold np_mean, np_sum. cbn [length pairwise_sum].
  rewrite decide_True by lia. cbn [seq_sum foldl].
  rewrite !neg_zero_add. change (float_of_nat 1) with 1%float. apply div_one.
Qed.

Lemma init_centers_one (g : rng) (X : mat) :
  1 <= shape0 X ->
  exists r, r ∈ rows X /\ init_centers g X 1%Z = Ok (Mat (width X) [r]).
Proof.
  intros Hn. unfold init_centers, init_state, random_randint. cbn [int_value].
  rewrite decide_False by lia. rewrite decide_False by lia.
  rewrite decide_False by lia. simpl.
  unfold row_at.
  destruct (lookup_lt_is_Some_2 (rows X)
              (Z.to_nat (0 + Z.of_nat (randint_raw g) mod (Z.of_nat (shape0 X) - 1 - 0 + 1))))
    as [r0 Hr0].
  { pose proof (Z.mod_pos_bound (Z.of_nat (randint_raw g)) (Z.of_nat (shape0 X) - 1 - 0 + 1)).
    unfold shape0 in *. lia. }
  rewrite Hr0. simpl. exists r0. split; [by eapply list_elem_of_lookup_2|done].
Qed.

Lemma assign_one_center (X C : mat) :
  wf_mat X -> wf_mat C -> width X = width C -> shape0 C = 1 -> 1 <= shape0 X ->
  assign X C = Ok (map (fun _ => 0%Z) (rows X)).
Proof.
  intros HX HC Hw Hk Hn. unfold assign.
  rewrite decide_False by (intros ?; done). rewrite decide_False by lia.
  rewrite measure_dist_same_width by (done || lia). simpl.
  rewrite traverse_fmap. apply traverse_ok_map. intros pt _.
  unfold shape0 in Hk. destruct (rows C) as [|c [|c' cs]]; try done.
  simpl. by destruct (fisnan _).
Qed.

Lemma members_all_zero (X : mat) :
  members X (map (fun _ => 0%Z) (rows X)) 0 = rows X.
Proof.
  unfold members. induction (rows X) as [|r l IH]; [done|].
  cbn [map zip zip_with]. rewrite filter_cons_True by done. cbn [fmap list_fmap].
  f_equal. exact IH.
Qed.

Lemma calc_centers_one (X C : mat) :
  width X = width C -> shape0 C = 1 ->
  fisnan (np_sum (column_means X)) = false ->
  calc_centers X C (map (fun _ => 0%Z) (rows X)) = Ok (Mat (width X) [column_means X]).
Proof.
  intros Hw Hk Hnan. unfold calc_centers.
  rewrite decide_False by (rewrite length_map; intros ?; done).
  rewrite decide_False by (intros ?; done).
  rewrite Hk. cbn [seq traverse]. unfold new_center, current_center.
  rewrite members_all_zero. fold (column_means X). by rewrite Hnan.
Qed.

Lemma update_one (X C : mat) :
  wf_mat X -> wf_mat C -> width X = width C -> shape0 C = 1 -> 1 <= shape0 X ->
  fisnan (np_sum (column_means X)) = false ->
  update X C = Ok (Mat (width X) [column_means X]).
Proof.
  intros HX HC Hw Hk Hn Hnan. unfold update.
  rewrite assign_one_center by done. simpl. by apply calc_centers_one.
Qed.

Lemma column_means_wf (X : mat) : wf_mat (Mat (width X) [column_means X]).
Proof.
  unfold wf_mat. simpl. apply Forall_singleton.
  unfold column_means. by rewrite length_map, length_seq.
Qed.

Lemma fit_while_one (X : mat) (fuel : nat) :
  wf_mat X -> 1 <= shape0 X -> fisnan (np_sum (column_means X)) = false ->
  forall A i, 20 - i <= fuel ->
    exists j, fit_while fuel X A (Mat (width X) [column_means X]) i
              = Some (Ok (Mat (width X) [column_means X], j)).
Proof.
  intros HX Hn Hnan. induction fuel as [|fuel IH]; intros A i Hfuel.
  - simpl. rewrite (proj2 (continue_loop_stop _ _ i)) by (right; lia). by eexists.
  - simpl. destruct (continue_loop _ _ i); [|by eexists].
    pose proof (update_one X (Mat (width X) [column_means X]) HX (column_means_wf X)
                  eq_refl eq_refl Hn Hnan) as Hup.
    unfold update in Hup.
    destruct (assign X _) as [labels|e]; simpl in Hup; [|done].
    rewrite Hup. apply IH. lia.
Qed.

Lemma fit_one_cluster (fuel : nat) (g : rng) (X : mat) :
  19 <= fuel -> wf_mat X -> 1 <= shape0 X -> fisnan (np_sum2 X) = false ->
  fisnan (np_sum (column_means X)) = false ->
  fit fuel g X (PyInt 1%Z) = Some (Ok (Mat (width X) [column_means X])).
Proof.
  intros Hfuel HX Hn Hsum Hnan. unfold fit, fit_run, fit_first. rewrite Hsum.
  destruct (init_centers_one g X Hn) as (r & Hr & ->). simpl.
  assert (wf_mat (Mat (width X) [r])) as HC.
  { unfold wf_mat. simpl. apply Forall_singleton.
    unfold wf_mat in HX. rewrite Forall_forall in HX. by apply HX. }
  pose proof (update_one X (Mat (width X) [r]) HX HC eq_refl eq_refl Hn Hnan) as Hup.
  unfold update in Hup.
  destruct (assign X _) as [labels|e]; simpl in Hup; [|done].
  simpl. rewrite Hup. simpl.
  destruct (fit_while_one X fuel HX Hn Hnan (Mat (width X) [r]) 1) as [j ->]; [lia|done].
Qed.

(** *** As many clusters as points *)

Lemma nonneg_below_zero (v z : float64) :
  nonneg v -> (v <=? z)%float = true -> (z =? 0)%float = true -> (v =? 0)%float = true.
Proof.
  unfold nonneg. intros Hv Hle Hz.
  rewrite FloatAxioms.leb_spec in Hv, Hle. rewrite FloatAxioms.eqb_spec in Hz |- *.
  simpl (Prim2SF 0) in *. unfold SFleb, SFeqb in *.
  destruct (Prim2SF v) as [s|s| |s m e], (Prim2SF z) as [s'|s'| |s' m' e'];
    simpl in *; try done; destruct s; try done; by destruct s'.
Qed.

Lemma indices_permutation (n : nat) (ind : list nat) :
  NoDup ind -> length ind = n -> Forall (fun i => i < n) ind -> ind ≡ₚ seq 0 n.
Proof.
  intros Hnd Hlen Hall. apply submseteq_length_Permutation.
  - apply NoDup_submseteq; [done|]. intros i Hi. apply elem_of_seq.
    rewrite Forall_forall in Hall. specialize (Hall i Hi). lia.
  - rewrite length_seq. lia.
Qed.

Lemma filter_label_none {A : Type} (l : list A) (L : list Z) (z : Z) :
  (forall i z', L !! i = Some z' -> z' <> z) ->
  filter (fun p : A * Z => p.2 = z) (zip l L) = [].
Proof.
  revert L. induction l as [|x l IH]; intros [|y L] HL; try done.
  cbn [zip zip_with]. rewrite filter_cons_False by (simpl; by apply (HL 0)).
  apply IH. intros i. apply (HL (S i)).
Qed.

(** The members of a cluster that a single label names. *)
Lemma filter_label_single {A : Type} (l : list A) (L : list Z) (z : Z) (i0 : nat) (a : A) :
  l !! i0 = Some a -> L !! i0 = Some z ->
  (forall i z', i <> i0 -> L !! i = Some z' -> z' <> z) ->
  (filter (fun p : A * Z => p.2 = z) (zip l L)).*1 = [a].
Proof.
  revert L i0. induction l as [|x l IH]; intros [|y L] i0 Ha Hz Hother; try done.
  cbn [zip zip_with]. destruct i0 as [|i0]; simpl in Ha, Hz.
  - injection Ha as ->. injection Hz as ->.
    rewrite filter_cons_True by done. cbn [fmap list_fmap]. f_equal.
    rewrite filter_label_none; [done|]. intros i z' Hi. apply (Hother (S i)); [lia|done].
  - rewrite filter_cons_False by (simpl; by apply (Hother 0)).
    apply (IH L i0); [done|done|]. intros i z' Hi. apply (Hother (S i)). lia.
Qed.

Lemma tabulate_lookup_total {A : Type} `{Inhabited A} (p : list A) :
  map (fun dd => p !!! dd) (seq 0 (length p)) = p.
Proof.
  apply list_eq. intros i. rewrite list_lookup_fmap.
  destruct (decide (i < length p)) as [Hi|Hi].
  - rewrite lookup_seq_lt by done. simpl. symmetry. by apply list_lookup_lookup_total_lt.
  - rewrite lookup_seq_ge by lia. simpl. symmetry. apply lookup_ge_None. lia.
Qed.

Lemma sub_self_zeros (l : list (list float64)) :
  Forall (Forall finite) l ->
  Forall (fun x => (x =? 0)%float = true)
         (concat (zip_with (zip_with PrimFloat.sub) l l)).
Proof.
  induction 1 as [|r l Hr _ IH]; simpl; [done|].
  apply Forall_app. split; [|done].
  induction Hr as [|x r Hx _ IHr]; simpl; [done|].
  constructor; [|done]. by rewrite sub_diag.
Qed.

Section AllPoints.

Variables (X C0 : mat) (ind : list nat).
Hypothesis HX : wf_mat X.
Hypothesis Hfin : Forall (Forall finite) (rows X).
Hypothesis Hsum : Forall (fun p => fisnan (np_sum p) = false) (rows X).
Hypothesis Hsep : forall i j p q, i <> j -> rows X !! i = Some p -> rows X !! j = Some q ->
  (dist_value p q =? 0)%float = false.
Hypothesis Hnd : NoDup ind.
Hypothesis Hlen : length ind = shape0 X.
Hypothesis Hind : Forall (fun i => i < shape0 X) ind.
Hypothesis Hrows : rows C0 = map (fun i => rows X !!! i) ind.
Hypothesis Hw : width C0 = width X.

Lemma all_points_lookup (j i : nat) :
  ind !! j = Some i ->
  exists p, rows X !! i = Some p /\ rows C0 !! j = Some p.
Proof.
  intros Hj. assert (i < shape0 X) as Hi.
  { rewrite Forall_forall in Hind. apply Hind. by eapply list_elem_of_lookup_2. }
  destruct (lookup_lt_is_Some_2 (rows X) i Hi) as [p Hp]. exists p. split; [done|].
  rewrite Hrows, list_lookup_fmap, Hj. simpl. f_equal.
  by apply list_lookup_total_correct.
Qed.

Lemma all_points_index (i : nat) : i < shape0 X -> exists j, ind !! j = Some i.
Proof.
  intros Hi. apply list_elem_of_lookup_1.
  rewrite (indices_permutation (shape0 X) ind Hnd Hlen Hind). apply elem_of_seq. lia.
Qed.

Lemma all_points_shape : shape0 C0 = shape0 X.
Proof. unfold shape0 at 1. by rewrite Hrows, length_map. Qed.

Lemma all_points_wf : wf_mat C0.
Proof.
  unfold wf_mat. rewrite Hrows, Hw. apply Forall_fmap, Forall_forall. intros i Hi. simpl.
  unfold wf_mat in HX. rewrite Forall_forall in HX. rewrite Forall_forall in Hind.
  apply HX, list_elem_of_lookup_total_2, Hind, Hi.
Qed.

Lemma all_points_permutation : rows C0 ≡ₚ rows X.
Proof.
  rewrite Hrows, (indices_permutation (shape0 X) ind Hnd Hlen Hind).
  unfold shape0. by rewrite tabulate_lookup_total.
Qed.

Lemma all_points_finite (c : list float64) : c ∈ rows C0 -> Forall finite c.
Proof.
  intros Hc. rewrite all_points_permutation in Hc.
  rewrite Forall_forall in Hfin. by apply Hfin.
Qed.

(** [np.argmin] of the distances of a point to the centers is the
    index of the center that is this point. *)
Lemma all_points_argmin (i j : nat) (p : list float64) :
  rows X !! i = Some p -> ind !! j = Some i ->
  np_argmin (map (dist_value p) (rows C0)) = Ok j.
Proof.
  intros Hp Hj.
  assert (Forall finite p) as Hpfin.
  { rewrite Forall_forall in Hfin. apply Hfin. by eapply list_elem_of_lookup_2. }
  destruct (np_argmin_least (map (dist_value p) (rows C0))) as (j' & v & -> & Hv & Hmin & _).
  { rewrite Hrows. apply lookup_lt_Some in Hj. destruct ind; simpl in *; [lia|done]. }
  { apply Forall_fmap, Forall_forall. intros c Hc. simpl.
    by apply nonneg_not_nan, dist_value_nonneg, all_points_finite. }
  f_equal. rewrite list_lookup_fmap in Hv.
  destruct (rows C0 !! j') as [c|] eqn:Hc; [|done]. simpl in Hv. injection Hv as <-.
  assert (is_Some (ind !! j')) as [i' Hi'].
  { apply lookup_lt_is_Some. apply lookup_lt_Some in Hc. by rewrite Hrows, length_map in Hc. }
  destruct (all_points_lookup j' i' Hi') as (p' & Hp' & Hc').
  rewrite Hc in Hc'. injection Hc' as ->.
  destruct (all_points_lookup j i Hj) as (p0 & Hp0 & Hcj).
  rewrite Hp in Hp0. injection Hp0 as <-.
  destruct (decide (i' = i)) as [->|Hne]; [by eapply NoDup_lookup|]. exfalso.
  assert ((dist_value p p' =? 0)%float = true) as Hz.
  { apply (nonneg_below_zero _ (dist_value p p)).
    - apply dist_value_nonneg; [done|]. apply all_points_finite. by eapply list_elem_of_lookup_2.
    - apply (Hmin j). by rewrite list_lookup_fmap, Hcj.
    - by apply dist_value_diag. }
  rewrite (Hsep i i' p p') in Hz; [done|by intros ->|done|done].
Qed.

Lemma all_points_assign :
  exists L, assign X C0 = Ok L /\ length L = shape0 X /\
    forall i j, ind !! j = Some i -> L !! i = Some (Z.of_nat j).
Proof.
  destruct (decide (shape0 X = 0)) as [Hn0|Hn].
  { exists []. unfold shape0 in Hn0. apply nil_length_inv in Hn0.
    assert (rows C0 = []) as HC0.
    { rewrite Hrows. unfold shape0 in Hlen. rewrite Hn0 in Hlen.
      apply nil_length_inv in Hlen. by rewrite Hlen. }
    split.
    - unfold assign. rewrite decide_False by (intros ?; done).
      rewrite decide_False by (unfold shape0; rewrite Hn0, HC0; simpl; lia).
      unfold measure_dist. cbn [nd_shape0 nd_cells]. rewrite decide_False by (unfold shape0; rewrite Hn0, HC0; simpl; lia).
      by rewrite Hn0.
    - split; [unfold shape0; by rewrite Hn0|].
      intros i j Hj. apply lookup_lt_Some in Hj. unfold shape0 in Hlen.
      rewrite Hlen, Hn0 in Hj. simpl in Hj. lia. }
  destruct (assign_cases X C0 HX all_points_wf)
    as [[? _]|[(_ & Hlt & _)|[(_ & Hk0 & _)|(_ & _ & _ & L & HL & HlenL & _)]]].
  - congruence.
  - rewrite all_points_shape in Hlt. lia.
  - rewrite all_points_shape in Hk0. lia.
  - exists L. split; [done|]. split; [done|]. intros i j Hj.
    destruct (all_points_lookup j i Hj) as (p & Hp & _).
    destruct (assign_rows X C0 L HX all_points_wf) as [_ Hlab]; try done.
    { by rewrite all_points_shape. }
    destruct (Hlab i p Hp) as (j' & Hj' & Harg).
    rewrite (all_points_argmin i j p Hp Hj) in Harg. by injection Harg as <-.
Qed.

Lemma all_points_new_center (L : list Z) (kk i : nat) (p : list float64) :
  length L = shape0 X ->
  (forall i j, ind !! j = Some i -> L !! i = Some (Z.of_nat j)) ->
  ind !! kk = Some i -> rows X !! i = Some p ->
  new_center X C0 L kk = Ok p.
Proof.
  intros HlenL HL Hkk Hp. unfold new_center, current_center.
  assert (members X L kk = [p]) as ->.
  { unfold members. apply (filter_label_single _ _ _ i); [done|by apply HL|].
    intros i' z' Hne Hi' ->.
    destruct (all_points_index i') as [j' Hj'].
    { apply lookup_lt_Some in Hi'. lia. }
    rewrite (HL i' j' Hj') in Hi'. injection Hi' as Heq.
    apply Nat2Z.inj in Heq. subst j'. congruence. }
  assert (map (fun dd => np_mean (column dd [p])) (seq 0 (width X)) = p) as ->.
  { assert (length p = width X) as <-.
    { unfold wf_mat in HX. rewrite Forall_forall in HX.
      apply HX. by eapply list_elem_of_lookup_2. }
    etrans; [|apply tabulate_lookup_total].
    apply map_ext. intros dd. unfold column. simpl. apply np_mean_singleton. }
  rewrite Forall_forall in Hsum. rewrite Hsum; [done|]. by eapply list_elem_of_lookup_2.
Qed.

Lemma all_points_update : update X C0 = Ok C0.
Proof.
  unfold update. destruct all_points_assign as (L & -> & HlenL & HL). simpl.
  destruct (calc_centers_rows X C0 L) as (Hok & _); [done|done|].
  apply Hok. split; [done|]. split; [done|]. intros kk Hkk.
  assert (is_Some (ind !! kk)) as [i Hi].
  { apply lookup_lt_is_Some. rewrite Hlen, <- all_points_shape. done. }
  destruct (all_points_lookup kk i Hi) as (p & Hp & Hc).
  exists p. split; [done|]. by apply (all_points_new_center L kk i p).
Qed.

Lemma all_points_stop (i : nat) : continue_loop C0 C0 i = false.
Proof.
  apply continue_loop_stop. left. unfold shift, np_sum2, mat_sub. simpl.
  apply np_sum_zeros, sub_self_zeros.
  apply Forall_forall. intros c Hc. by apply all_points_finite.
Qed.

Lemma all_points_fit (fuel : nat) (g : rng) (k : pyint) :
  fisnan (np_sum2 X) = false -> init_centers g X k = Ok C0 ->
  fit fuel g X (PyInt k) = Some (Ok C0).
Proof.
  intros Hnan Hinit. unfold fit, fit_run, fit_first. rewrite Hnan, Hinit. simpl.
  pose proof all_points_update as Hup. unfold update in Hup.
  destruct (assign X C0) as [L|e]; simpl in Hup; [|done].
  simpl. rewrite Hup. simpl.
  destruct fuel; simpl; by rewrite all_points_stop.
Qed.

(** Every point is labelled by the index of the center that it is,
    and by no other point's. *)
Lemma all_points_labels :
  exists L, assign X C0 = Ok L /\
    forall i p, rows X !! i = Some p ->
      exists j, L !! i = Some (Z.of_nat j) /\ rows C0 !! j = Some p /\
                (dist_value p p =? 0)%float = true /\
                forall i', L !! i' = Some (Z.of_nat j) -> i' = i.
Proof.
  destruct all_points_assign as (L & HL & HlenL & Hlab). exists L. split; [done|].
  intros i p Hp. destruct (all_points_index i) as [j Hj]; [by eapply lookup_lt_Some|].
  exists j. split; [by apply Hlab|].
  destruct (all_points_lookup j i Hj) as (p' & Hp' & Hc). rewrite Hp in Hp'.
  injection Hp' as <-. split; [done|]. split.
  - apply dist_value_diag. rewrite Forall_forall in Hfin. apply Hfin.
    by eapply list_elem_of_lookup_2.
  - intros i' Hi'. destruct (all_points_index i') as [j' Hj'].
    { apply lookup_lt_Some in Hi'. lia. }
    rewrite (Hlab i' j' Hj') in Hi'. injection Hi' as Heq. apply Nat2Z.inj in Heq.
    subst j'. congruence.
Qed.

End AllPoints.



(** ** More on [calc_centers] and on the loop *)

(** On an array without [nan], [np.argmax] returns an index of the
    greatest value, in the order of the binary64 comparisons. *)
Lemma argmax_scan_spec (l : list float64) (mp : float64) (best i : nat) :
  fisnan mp = false -> Forall (fun x => fisnan x = false) l ->
  let j := argmax_scan mp best i l in
  (j = best /\ Forall (fun y => (y <=? mp)%float = true) l) \/
  (exists t x, j = i + t /\ l !! t = Some x /\ (mp <? x)%float = true /\
               Forall (fun y => (y <=? x)%float = true) l).
Proof.
  intros Hmp Hl. revert mp best i Hmp.
  induction Hl as [|x l Hx _ IH]; intros mp best i Hmp; simpl.
  - left. split; [done|constructor].
  - destruct (x <=? mp)%float eqn:Hxm.
    + destruct (IH mp best (S i) Hmp) as [[Hj Hall]|(t & v & Hj & Ht & Hv & Hall)].
      * left. split; [done|]. by constructor.
      * right. exists (S t), v. repeat split; [lia|done|done|].
        constructor; [|done]. by apply ltb_leb, (leb_ltb_trans x mp v).
    + rewrite Hx. pose proof (leb_false_ltb x mp Hx Hmp Hxm) as Hlt.
      destruct (IH x i (S i) Hx) as [[Hj Hall]|(t & v & Hj & Ht & Hv & Hall)].
      * right. exists 0, x. repeat split; [lia|done|].
        constructor; [by apply leb_refl|done].
      * right. exists (S t), v. repeat split; [lia|done| |].
        -- apply (ltb_leb_trans mp x v); [done|by apply ltb_leb].
        -- constructor; [by apply ltb_leb|done].
Qed.

Lemma np_argmax_greatest (l : list float64) :
  l <> [] -> Forall (fun x => fisnan x = false) l ->
  exists j v, np_argmax l = Ok j /\ l !! j = Some v /\
    Forall (fun y => (y <=? v)%float = true) l.
Proof.
  destruct l as [|x l]; [done|]. intros _ [Hx Hl]%Forall_cons. simpl. rewrite Hx.
  destruct (argmax_scan_spec l x 0 1 Hx Hl) as [[Hj Hall]|(t & v & Hj & Ht & Hv & Hall)].
  - exists 0, x. rewrite Hj. repeat split. constructor; [by apply leb_refl|done].
  - exists (S t), v. rewrite Hj. repeat split; [done|].
    constructor; [by apply ltb_leb|done].
Qed.

(** In one dimension the fallback of [calc_centers] is what its
    comment says: a point of [X] farthest from the old center, for the
    computed distances. *)
Lemma fallback_row_one_dimension (xs : list float64) (C : mat) (kk : nat) (c : float64) :
  xs <> [] -> Forall finite xs -> finite c -> rows C !! kk = Some [c] ->
  exists x, x ∈ xs /\
    fallback_row (Mat 1 (map (fun x => [x]) xs)) C kk = Ok [x] /\
    forall y, y ∈ xs -> (dist_value [y] [c] <=? dist_value [x] [c])%float = true.
Proof.
  intros Hxs Hfin Hcfin Hc. unfold fallback_row, row_at. rewrite Hc.
  unfold mbind, result_bind. rewrite measure_dist_arr1.
  2:{ unfold shape0. simpl. rewrite length_map. destruct xs; [done|]. cbn [length]. lia. }
  cbn [rows width].
  assert (concat (map (fun pt => map (dist_to_scalar pt) [c]) (map (fun x => [x]) xs))
          = map (fun x => dist_value [x] [c]) xs) as ->.
  { clear. induction xs as [|x xs IH]; [done|]. cbn [map concat app] in *. by rewrite IH. }
  destruct (np_argmax_greatest (map (fun x => dist_value [x] [c]) xs)) as (j & v & -> & Hj & Hmax).
  { by destruct xs. }
  { apply Forall_fmap, Forall_forall. intros x Hx. simpl.
    apply nonneg_not_nan, dist_value_nonneg; apply Forall_singleton; [|done].
    rewrite Forall_forall in Hfin. by apply Hfin. }
  rewrite Nat.div_1_r. cbn [rows].
  rewrite list_lookup_fmap in Hj.
  destruct (xs !! j) as [x|] eqn:Hx; [|done]. simpl in Hj. injection Hj as <-.
  exists x. split; [by eapply list_elem_of_lookup_2|]. split.
  - by rewrite list_lookup_fmap, Hx.
  - intros y Hy. rewrite Forall_forall in Hmax. apply Hmax.
    apply list_elem_of_fmap. by exists y.
Qed.





(** X11. The test of the [while] of [fit] looks at the sum of the
    signed coordinate differences only.  It lets the loop go on, below
    20 iterations, exactly when this sum is not zero; a sum that is
    [nan] is not zero, so that the loop then never stops before 20; and
    moves that cancel stop the loop: from the seeds 0 and 1 among the
    points -3, 0, 1, 4 the first iteration moves the two centers by
    1.5 in opposite directions and [fit] returns at once. *)
Theorem continue_loop_signed_sum (A B : mat) (i : nat) :
  (continue_loop A B i = true <->
     (np_sum2 (mat_sub B A) =? 0)%float = false /\ i < 20) /\
  (fisnan (np_sum2 (mat_sub B A)) = true -> i < 20 -> continue_loop A B i = true) /\
  init_centers (Rng 1 (fun _ _ => 2)) (Mat 1 [[-3]; [0]; [1]; [4]]%float) 2%Z
  = Ok (Mat 1 [[0]; [1]]%float) /\
  update (Mat 1 [[-3]; [0]; [1]; [4]]%float) (Mat 1 [[0]; [1]]%float)
  = Ok (Mat 1 [[-1.5]; [2.5]]%float) /\
  continue_loop (Mat 1 [[0]; [1]]%float) (Mat 1 [[-1.5]; [2.5]]%float) 1 = false /\
  fit_run 19 (Rng 1 (fun _ _ => 2)) (Mat 1 [[-3]; [0]; [1]; [4]]%float) (PyInt 2%Z)
  = Some (Ok (Mat 1 [[-1.5]; [2.5]]%float, 1)).
Proof.
  split; [apply continue_loop_spec|]. split.
  - intros Hnan Hi. apply continue_loop_spec. split; [|done].
    apply fisnan_spec in Hnan. unfold shift. by rewrite Hnan.
  - repeat split; by vm_compute.
Qed.
